(** * A model of the Twitter scraper (scraper.py)

    The scraper drives a Selenium browser: it scrolls a search feed, turns
    every top-level tweet into a record, opens the thread of every tweet
    that has replies in a second tab and collects the replies there.

    The development embeds the program as Rocq functions over an explicit
    browser state.  The outside world (which elements a page shows, the
    document height, which driver calls raise, what langdetect answers) is
    an oracle that reads the history of the interaction so far; every
    theorem quantifies over it.  Strings are ASCII strings: a character
    outside ASCII is an ordinary character that is neither a digit nor
    white space. *)

From Stdlib Require Import ZArith Lia Bool Ascii String.
From stdpp Require Import gmap strings list.

Local Open Scope string_scope.
Local Open Scope list_scope.
Local Open Scope Z_scope.

(** ** Python strings *)

Module PyStr.

Definition code (c : ascii) : nat := nat_of_ascii c.

(** [c.isdigit()] and the regular expression class [\d], on ASCII. *)
Definition is_digit (c : ascii) : bool :=
  (Nat.leb 48 (code c)) && (Nat.leb (code c) 57).

(** White space removed by [str.strip()]. *)
Definition is_space (c : ascii) : bool :=
  ((Nat.leb 9 (code c)) && (Nat.leb (code c) 13))
  || ((Nat.leb 28 (code c)) && (Nat.leb (code c) 32)).

(** White space skipped by [float(...)] around its argument. *)
Definition is_float_space (c : ascii) : bool :=
  ((Nat.leb 9 (code c)) && (Nat.leb (code c) 13)) || Nat.eqb (code c) 32.

Definition chars (s : string) : list ascii := list_ascii_of_string s.
Definition of_chars (l : list ascii) : string := string_of_list_ascii l.

Fixpoint drop_while (p : ascii → bool) (l : list ascii) : list ascii :=
  match l with
  | c :: l' => if p c then drop_while p l' else l
  | [] => []
  end.

Fixpoint take_while (p : ascii → bool) (l : list ascii) : list ascii :=
  match l with
  | c :: l' => if p c then c :: take_while p l' else []
  | [] => []
  end.

Definition strip_with (p : ascii → bool) (l : list ascii) : list ascii :=
  rev (drop_while p (rev (drop_while p l))).

(** [s.strip()] *)
Definition strip (s : string) : string :=
  of_chars (strip_with is_space (chars s)).

Definition lower_char (c : ascii) : ascii :=
  if (Nat.leb 65 (code c)) && (Nat.leb (code c) 90)
  then ascii_of_nat (code c + 32) else c.

(** [s.lower()] *)
Definition lower (s : string) : string :=
  of_chars (map lower_char (chars s)).

(** [s.replace(c, '')] for a one-character [c]. *)
Definition remove_char (c : ascii) (s : string) : string :=
  of_chars (filter (λ d, d ≠ c) (chars s)).

(** [c in s] for a one-character [c]. *)
Definition has_char (c : ascii) (s : string) : bool :=
  existsb (Ascii.eqb c) (chars s).

(** [s.isdigit()]: not empty and digits only. *)
Definition isdigit (s : string) : bool :=
  match chars s with
  | [] => false
  | l => forallb is_digit l
  end.

(** The truth value of a string: [if s:]. *)
Definition truthy (s : string) : bool :=
  match s with EmptyString => false | _ => true end.

Fixpoint is_prefix (p l : list ascii) : bool :=
  match p, l with
  | [], _ => true
  | a :: p', b :: l' => Ascii.eqb a b && is_prefix p' l'
  | _ :: _, [] => false
  end.

Fixpoint find_sub (p l : list ascii) : bool :=
  is_prefix p l ||
  match l with
  | [] => false
  | _ :: l' => find_sub p l'
  end.

(** [p in s] for strings. *)
Definition contains (p s : string) : bool := find_sub (chars p) (chars s).

(** [s.split('/')[-1]]: what follows the last slash. *)
Definition last_segment (s : string) : string :=
  of_chars (rev (take_while (λ c, negb (Ascii.eqb c "/")) (rev (chars s)))).

Definition digit_val (c : ascii) : Z := Z.of_nat (code c) - 48.

(** [int(s)] for a string of digits (any length; the cap that newer
    interpreters put on the number of digits is not modelled). *)
Definition int_of_digits (l : list ascii) : Z :=
  fold_left (λ acc c, 10 * acc + digit_val c) l 0.

End PyStr.

(** ** Regular expressions of the scraper *)

Module Regex.
Import PyStr.

Definition is_suffix_letter (c : ascii) : bool :=
  Ascii.eqb c "K" || Ascii.eqb c "k" || Ascii.eqb c "M" || Ascii.eqb c "m".

(** The match of [\d+(?:\.\d+)?[KkMm]?] anchored at the head of [l],
    which starts with a digit: a greedy run of digits, a fraction when a
    dot is followed by a digit, one suffix letter when it is there. *)
Definition count_token_at (l : list ascii) : list ascii :=
  let ds := take_while is_digit l in
  let rest := drop_while is_digit l in
  let '(frac, rest) :=
    match rest with
    | "."%char :: (d :: _) as after =>
        if is_digit d
        then ("."%char :: take_while is_digit after, drop_while is_digit after)
        else ([], rest)
    | _ => ([], rest)
    end in
  let suffix :=
    match rest with
    | c :: _ => if is_suffix_letter c then [c] else []
    | [] => []
    end in
  (ds ++ frac ++ suffix)%list.

(** [re.search(r'(\d+(?:\.\d+)?[KkMm]?)', s)]: the leftmost match starts
    at the first digit of [s]; no digit, no match. *)
Definition count_token (s : string) : option string :=
  match drop_while (λ c, negb (is_digit c)) (chars s) with
  | [] => None
  | l => Some (of_chars (count_token_at l))
  end.

Definition status_marker : list ascii := chars "/status/".

Fixpoint status_search (l : list ascii) : option (list ascii) :=
  let here :=
    if is_prefix status_marker l
    then match take_while is_digit (drop (length status_marker) l) with
         | [] => None
         | ds => Some ds
         end
    else None in
  match here with
  | Some ds => Some ds
  | None => match l with
            | [] => None
            | _ :: l' => status_search l'
            end
  end.

(** [re.search(r'/status/(\d+)', url)] and its group 1. *)
Definition status_id (url : string) : option string :=
  of_chars <$> status_search (chars url).

End Regex.

(** ** Values that a call may fail to deliver *)

(** The result of a Python expression that either has a value or raises
    an exception (of class [Exception]; which one never matters, every
    handler of the scraper catches them all). *)
Inductive lookup (A : Type) : Type :=
| Found (a : A)
| Raises.
Arguments Found {A} a.
Arguments Raises {A}.

Definition lookup_bind {A B} (x : lookup A) (f : A → lookup B) : lookup B :=
  match x with
  | Found a => f a
  | Raises => Raises
  end.

Definition lookup_map {A B} (f : A → B) (x : lookup A) : lookup B :=
  lookup_bind x (λ a, Found (f a)).

(** ** Python floats: IEEE 754 binary64, rounding written out *)

Module PyFloat.
Import PyStr.

(** A finite float is [± m * 2^e] with [0 <= m < 2^53] and
    [-1074 <= e <= 971]. *)
Inductive t : Type :=
| Fin (neg : bool) (m e : Z)
| Inf (neg : bool)
| NaN.

Definition pow2 (k : Z) : Z := 2 ^ k.

(** [num / den / 2^e] as a fraction of integers. *)
Definition scaled_num (num e : Z) : Z := num * pow2 (Z.max 0 (- e)).
Definition scaled_den (den e : Z) : Z := den * pow2 (Z.max 0 e).

(** Round a non-negative fraction to the nearest integer, ties to even. *)
Definition round_half_even (n d : Z) : Z :=
  let q := n / d in
  let r := n mod d in
  if 2 * r <? d then q
  else if d <? 2 * r then q + 1
  else if Z.even q then q else q + 1.

(** The binary64 nearest to [num / den] ([0 <= num], [0 < den]), with
    gradual underflow and overflow to infinity. *)
Definition round (neg : bool) (num den : Z) : t :=
  if num =? 0 then Fin neg 0 0
  else
    let e0 := Z.log2 num - Z.log2 den - 52 in
    let e1 :=
      if scaled_num num e0 / scaled_den den e0 <? pow2 52 then e0 - 1 else e0 in
    let e := Z.max e1 (-1074) in
    let m := round_half_even (scaled_num num e) (scaled_den den e) in
    let '(m, e) := if m =? pow2 53 then (pow2 52, e + 1) else (m, e) in
    if 971 <? e then Inf neg else Fin neg m e.

(** [x * k] for a float [x] and a positive Python int [k] that is exact
    as a float (1000 and 1000000 are). *)
Definition mul_int (x : t) (k : Z) : t :=
  match x with
  | Fin neg m e =>
      if 0 <=? e then round neg (m * k * pow2 e) 1
      else round neg (m * k) (pow2 (- e))
  | Inf neg => Inf neg
  | NaN => NaN
  end.

(** [int(x)]: truncation towards zero; raises on infinities and NaN. *)
Definition to_int (x : t) : lookup Z :=
  match x with
  | Fin neg m e =>
      let v := if 0 <=? e then m * pow2 e else m / pow2 (- e) in
      Found (if neg then - v else v)
  | Inf _ | NaN => Raises
  end.

(** Underscores of a numeric literal: each one between two digits. *)
Fixpoint strip_underscores (prev : ascii) (l : list ascii) : option (list ascii) :=
  match l with
  | [] => if Ascii.eqb prev "_" then None else Some []
  | c :: l' =>
      if Ascii.eqb c "_"
      then if is_digit prev then strip_underscores c l' else None
      else if Ascii.eqb prev "_" && negb (is_digit c) then None
           else cons c <$> strip_underscores c l'
  end.

Definition split_sign (l : list ascii) : bool * list ascii :=
  match l with
  | "-"%char :: l' => (true, l')
  | "+"%char :: l' => (false, l')
  | _ => (false, l)
  end.

(** An exponent part [e[+-]digits], or nothing, up to the end. *)
Definition parse_exponent (l : list ascii) : option Z :=
  match l with
  | [] => Some 0
  | c :: l' =>
      if Ascii.eqb (lower_char c) "e"
      then let '(neg, ds) := split_sign l' in
           match ds with
           | [] => None
           | _ => if forallb is_digit ds
                  then Some (if neg then - int_of_digits ds else int_of_digits ds)
                  else None
           end
      else None
  end.

(** A decimal literal without sign: digits, an optional dot and digits,
    an optional exponent; at least one digit around the dot. *)
Definition parse_decimal (neg : bool) (l : list ascii) : lookup t :=
  let ip := take_while is_digit l in
  let rest := drop_while is_digit l in
  let '(fp, rest) :=
    match rest with
    | "."%char :: after => (take_while is_digit after, drop_while is_digit after)
    | _ => ([], rest)
    end in
  match (ip ++ fp)%list with
  | [] => Raises
  | ds =>
      match parse_exponent rest with
      | None => Raises
      | Some x =>
          let n := int_of_digits ds in
          let dexp := x - Z.of_nat (length fp) in
          Found (if 0 <=? dexp then round neg (n * 10 ^ dexp) 1
                 else round neg n (10 ^ (- dexp)))
      end
  end.

(** [float(s)] for a string [s]. *)
Definition of_string (s : string) : lookup t :=
  match strip_with is_float_space (chars s) with
  | [] => Raises
  | l =>
      match (if existsb (Ascii.eqb "_") l then strip_underscores "000" l else Some l) with
      | None => Raises
      | Some l =>
          let '(neg, body) := split_sign l in
          let word := of_chars (map lower_char body) in
          if String.eqb word "inf" || String.eqb word "infinity" then Found (Inf neg)
          else if String.eqb word "nan" then Found NaN
          else parse_decimal neg body
      end
  end.

End PyFloat.

(** ** Engagement counts *)

(** [int(float(s.lower().replace(letter, '')) * factor)] *)
Definition scaled_count (letter : ascii) (factor : Z) (count_text : string) : lookup Z :=
  lookup_bind
    (PyFloat.of_string (PyStr.remove_char letter (PyStr.lower count_text)))
    (λ x, PyFloat.to_int (PyFloat.mul_int x factor)).

(** The conversion of a count text, lines 85-90, and again lines 102-107:
    the value assigned to the metric, or the exception raised. *)
Definition convert_count (count_text : string) : lookup Z :=
  if PyStr.has_char "K" count_text || PyStr.has_char "k" count_text
  then scaled_count "k" 1000 count_text
  else if PyStr.has_char "M" count_text || PyStr.has_char "m" count_text
  then scaled_count "m" 1000000 count_text
  else Found (if PyStr.isdigit count_text
              then PyStr.int_of_digits (PyStr.chars count_text) else 0).

(** Lines 77-90, the text of one element of the grouped selector:
    [Found (Some v)] assigns [v] to the metric, [Found None] leaves the
    metric as it is, [Raises] is an exception. *)
Definition parse_primary (text : string) : lookup (option Z) :=
  let count_text := PyStr.strip text in
  if PyStr.truthy count_text then
    match Regex.count_token count_text with
    | Some token => lookup_map Some (convert_count token)
    | None => Found None
    end
  else Found None.

(** Lines 100-107, the text of one span of the per-metric selector. *)
Definition parse_secondary (text : string) : lookup (option Z) :=
  let count_text := PyStr.strip text in
  if PyStr.truthy count_text
     && (PyStr.isdigit count_text
         || PyStr.has_char "K" count_text || PyStr.has_char "M" count_text)
  then lookup_map Some (convert_count count_text)
  else Found None.

(** ** Elements of a page *)

(** One element matched by the grouped selector of [get_metrics]. *)
Record metric_element : Type := {
  el_testid : lookup (option string); (* element.get_attribute('data-testid') *)
  el_text : lookup string;            (* element.text *)
}.

(** One [article[data-testid="tweet"]] element, as the answers it gives
    to the queries of the scraper.  [Raises] stands for any exception of
    the query (element absent for [find_element], stale element, ...) and,
    for an attribute, also for a missing attribute on which the next
    operation of the scraper raises. *)
Record article : Type := {
  a_links : lookup (list (lookup string)); (* a[href*="/status/"] and each href *)
  a_social : lookup string;                (* div[data-testid="socialContext"] text *)
  a_user_a : lookup string;                (* div[data-testid="User-Name"] a, href *)
  a_user_b : lookup string;                (* a[data-testid="User-Name"], href *)
  a_text : lookup string;                  (* div[data-testid="tweetText"] text *)
  a_time : lookup (option string);         (* time, attribute datetime *)
  a_group : lookup (list metric_element);  (* grouped selector of get_metrics *)
  a_spans : string → lookup (list (lookup string)); (* spans of one metric, text of each *)
}.

(** The dictionary built for every tweet and reply. *)
Record tweet_data : Type := {
  id : string;
  speaker_nm : string;
  conversation_id : string;
  reply_to_id : option string;
  reply_to_nm : option string;
  timestamp : option string;
  text : string;
  likes : Z;
  shares : Z;
  num_comments : Z;
}.

(** The dictionary [metrics] of [get_metrics]; its three keys are fixed. *)
Record metrics : Type := { reply : Z; retweet : Z; like : Z }.

Definition zero_metrics : metrics := {| reply := 0; retweet := 0; like := 0 |}.

Definition metric_keys : list string := ["reply"; "retweet"; "like"].

(** [key in metrics] *)
Definition is_metric_key (key : string) : bool :=
  existsb (String.eqb key) metric_keys.

(** [metrics[key] = v] for a key of the dictionary. *)
Definition set_metric (key : string) (v : Z) (m : metrics) : metrics :=
  if String.eqb key "reply" then {| reply := v; retweet := retweet m; like := like m |}
  else if String.eqb key "retweet" then {| reply := reply m; retweet := v; like := like m |}
  else if String.eqb key "like" then {| reply := reply m; retweet := retweet m; like := v |}
  else m.

(** [all(v == 0 for v in metrics.values())] *)
Definition all_zero (m : metrics) : bool :=
  (reply m =? 0) && (retweet m =? 0) && (like m =? 0).

(** ** The browser and the outside world *)

(** What the scraper asks of the outside world, in the order it asks. *)
Inductive event : Type :=
| ESetup (headless : bool)    (* setup_driver *)
| EGet (url : string)         (* driver.get *)
| EDismiss (label : string)   (* find and click the buttons of a popup *)
| EFindTweets                 (* find_elements(article[data-testid="tweet"]) *)
| EScroll                     (* window.scrollTo(0, document.body.scrollHeight) *)
| EHeight                     (* return document.body.scrollHeight *)
| EOpen (url : string)        (* window.open(url, '_blank') *)
| EHandles                    (* driver.window_handles *)
| ESwitch (h : nat)           (* driver.switch_to.window(h) *)
| EClose                      (* driver.close() *)
| EQuit                       (* driver.quit() *)
| EGroupQuery                 (* the grouped selector of get_metrics *)
| ESpanQuery (metric : string)(* the per-metric selector of get_metrics *)
| EDetect (text : string)     (* langdetect.detect(text) *)
| ELangSkip (text : string)   (* the branch that skips a non-English text *)
| ENow.                       (* datetime.datetime.now() *)

(** The outside world answers from the history of the run, newest event
    first.  [raises] tells whether the driver call just made raises. *)
Record oracle : Type := {
  raises : list event → bool;
  rendered : list event → list article;
  scroll_height : list event → Z;
  detect : list event → string → lookup string;
  clock : list event → string;
  strptime : string → lookup string; (* strptime(s, '%Y-%m-%d') then strftime *)
}.

(** The browser: its open windows in the order of [window_handles], the
    window that has the focus, the next unused handle. *)
Record world : Type := {
  history : list event;
  handles : list nat;
  focus : nat;
  fresh : nat;
}.

Definition init_world : world :=
  {| history := []; handles := []; focus := 0%nat; fresh := 0%nat |}.

Definition record_event (ev : event) (w : world) : world :=
  {| history := ev :: history w; handles := handles w;
     focus := focus w; fresh := fresh w |}.

Definition set_windows (hs : list nat) (f next : nat) (w : world) : world :=
  {| history := history w; handles := hs; focus := f; fresh := next |}.

(** Does the focused window still exist? *)
Definition focus_open (w : world) : bool := bool_decide (focus w ∈ handles w).

(** ** Computations that raise *)

(** The outcome of a computation: a value, an exception that escapes, or
    the fuel of a [while] loop running out. *)
Inductive res (A : Type) : Type :=
| Ok (a : A) (w : world)
| Exn (w : world)
| Fuel.
Arguments Ok {A} a w.
Arguments Exn {A} w.
Arguments Fuel {A}.

Definition M (A : Type) : Type := world → res A.

Definition ret {A} (a : A) : M A := λ w, Ok a w.

Definition bind {A B} (m : M A) (k : A → M B) : M B :=
  λ w, match m w with
       | Ok a w' => k a w'
       | Exn w' => Exn w'
       | Fuel => Fuel
       end.

Definition raise {A} : M A := λ w, Exn w.

Definition out_of_fuel {A} : M A := λ _, Fuel.

(** [try: m  except: ...]: the exception of [m] becomes [None]. *)
Definition attempt {A} (m : M A) : M (option A) :=
  λ w, match m w with
       | Ok a w' => Ok (Some a) w'
       | Exn w' => Ok None w'
       | Fuel => Fuel
       end.

Definition lift {A} (x : lookup A) : M A :=
  match x with
  | Found a => ret a
  | Raises => raise
  end.

Definition lift_option {A} (x : option A) : M A :=
  match x with
  | Some a => ret a
  | None => raise
  end.

Definition get_world : M world := λ w, Ok w w.

Definition final_world {A} (r : res A) : option world :=
  match r with
  | Ok _ w | Exn w => Some w
  | Fuel => None
  end.

Declare Scope crawl_scope.
Delimit Scope crawl_scope with crawl.
Notation "x <- m ;; k" := (bind m (λ x, k))
  (at level 100, m at next level, right associativity) : crawl_scope.
Notation "m ;;; k" := (bind m (λ _, k))
  (at level 100, right associativity) : crawl_scope.
Local Open Scope crawl_scope.

(** ** The arguments of the command line *)

(** The namespace that [parse_arguments] returns. *)
Module Args.

Record t : Type := {
  topic : string;
  start_date : string;
  end_date : string;
  output : string;
  limit : Z;
  replies_limit : Z;
  headless : bool;
  english_only : bool;
}.

End Args.

Section Scraper.

Variable env : oracle.

(** *** Driver calls *)

Definition log (ev : event) : M unit := λ w, Ok tt (record_event ev w).

(** A call to the driver that does not need the focused window. *)
Definition call (ev : event) : M unit :=
  λ w, let w' := record_event ev w in
       if raises env (history w') then Exn w' else Ok tt w'.

(** A call that runs in the focused window; it raises when that window
    has been closed. *)
Definition page_call (ev : event) : M unit :=
  λ w, let w' := record_event ev w in
       if raises env (history w') || negb (focus_open w) then Exn w' else Ok tt w'.

Definition setup_driver (headless : bool) : M unit :=
  call (ESetup headless) ;;;
  λ w, Ok tt (set_windows [0%nat] 0%nat 1%nat w).

Definition driver_get (url : string) : M unit := page_call (EGet url).

Definition dismiss (label : string) : M unit := page_call (EDismiss label).

Definition find_tweets : M (list article) :=
  page_call EFindTweets ;;;
  w <- get_world ;; ret (rendered env (history w)).

Definition scroll_down : M unit := page_call EScroll.

Definition read_height : M Z :=
  page_call EHeight ;;;
  w <- get_world ;; ret (scroll_height env (history w)).

Definition open_tab (url : string) : M unit :=
  page_call (EOpen url) ;;;
  λ w, Ok tt (set_windows (handles w ++ [fresh w]) (focus w) (S (fresh w)) w).

Definition window_handles : M (list nat) :=
  call EHandles ;;;
  w <- get_world ;; ret (handles w).

Definition switch_to (h : nat) : M unit :=
  call (ESwitch h) ;;;
  λ w, if bool_decide (h ∈ handles w)
       then Ok tt (set_windows (handles w) h (fresh w) w)
       else Exn w.

Definition close_window : M unit :=
  page_call EClose ;;;
  λ w, Ok tt (set_windows (filter (λ h, h ≠ focus w) (handles w)) (focus w) (fresh w) w).

Definition quit : M unit :=
  call EQuit ;;;
  λ w, Ok tt (set_windows [] (focus w) (fresh w) w).

(** *** is_english_text *)

Definition is_english_text (text : string) : M bool :=
  log (EDetect text) ;;;
  w <- get_world ;;
  ret (match detect env (history w) text with
       | Found lang => String.eqb lang "en"
       | Raises => true
       end).

(** *** get_metrics *)

(** The loop over the elements of the grouped selector, lines 72-92.
    [bound] tells whether [test_id] has been assigned: the handler of
    line 92 prints it, so an exception before its first assignment
    raises again inside the handler and leaves the loop.  The result is
    the dictionary and whether an exception left the loop. *)
Fixpoint primary_loop (els : list metric_element) (bound : bool) (m : metrics)
  : metrics * bool :=
  match els with
  | [] => (m, false)
  | el :: rest =>
      match el_testid el with
      | Raises => if bound then primary_loop rest bound m else (m, true)
      | Found test_id =>
          let m' :=
            match test_id with
            | Some key =>
                if is_metric_key key then
                  match lookup_bind (el_text el) parse_primary with
                  | Found (Some v) => set_metric key v m
                  | Found None | Raises => m
                  end
                else m
            | None => m
            end in
          primary_loop rest true m'
      end
  end.

(** The loop over the spans of one metric, lines 99-108: the first span
    that passes the guard of line 101 decides, and an exception ends
    the loop for this metric. *)
Fixpoint span_count (els : list (lookup string)) : option Z :=
  match els with
  | [] => None
  | el :: rest =>
      match lookup_bind el parse_secondary with
      | Found (Some v) => Some v
      | Found None => span_count rest
      | Raises => None
      end
  end.

(** The loop over the keys of the dictionary, lines 96-110. *)
Fixpoint secondary_loop (keys : list string) (a : article) (m : metrics) : M metrics :=
  match keys with
  | [] => ret m
  | metric :: rest =>
      log (ESpanQuery metric) ;;;
      let m' :=
        match a_spans a metric with
        | Found els =>
            match span_count els with
            | Some v => set_metric metric v m
            | None => m
            end
        | Raises => m
        end in
      secondary_loop rest a m'
  end.

Definition get_metrics (a : article) : M metrics :=
  log EGroupQuery ;;;
  match a_group a with
  | Raises => ret zero_metrics
  | Found group_elements =>
      let '(m, escaped) := primary_loop group_elements false zero_metrics in
      if escaped then ret m
      else if all_zero m then secondary_loop metric_keys a m
      else ret m
  end.

(** *** Fields of a tweet *)

Definition resolve_username (a : article) : string :=
  match a_user_a a with
  | Found href => PyStr.last_segment href
  | Raises =>
      match a_user_b a with
      | Found href => PyStr.last_segment href
      | Raises => "unknown"
      end
  end.

Definition resolve_text (a : article) : string :=
  match a_text a with
  | Found t => t
  | Raises => ""
  end.

Definition resolve_timestamp (a : article) : M (option string) :=
  match a_time a with
  | Found t => ret t
  | Raises => log ENow ;;; w <- get_world ;; ret (Some (clock env (history w)))
  end.

(** [if english_only and text and not is_english_text(text)]: does the
    tweet get skipped? *)
Definition language_skip (english_only : bool) (text : string) : M bool :=
  if english_only && PyStr.truthy text then
    english <- is_english_text text ;;
    if english then ret false else log (ELangSkip text) ;;; ret true
  else ret false.

(** *** get_twitter_replies *)

Section Replies.

Variables (parent_id parent_username : string).
Variables (replies_limit : Z) (english_only : bool).

(** The body of the [try] of lines 327-387 for one element: the
    dictionary to append, [None] for [continue]. *)
Definition reply_body (a : article) : M (option tweet_data) :=
  reply_links <- lift (a_links a) ;;
  match reply_links with
  | [] => ret None
  | link :: _ =>
      reply_url <- lift link ;;
      reply_id <- lift_option (Regex.status_id reply_url) ;;
      let username := resolve_username a in
      let text := resolve_text a in
      skip <- language_skip english_only text ;;
      if skip then ret None
      else
        timestamp <- resolve_timestamp a ;;
        metrics <- get_metrics a ;;
        ret (Some {| id := reply_id;
                     speaker_nm := username;
                     conversation_id := parent_id;
                     reply_to_id := Some parent_id;
                     reply_to_nm := Some parent_username;
                     timestamp := timestamp;
                     text := text;
                     likes := like metrics;
                     shares := retweet metrics;
                     num_comments := reply metrics |})
  end.

(** The [for] loop of lines 319-391 from index [i] on. *)
Fixpoint reply_for (els : list article) (i : nat) (replies : list tweet_data)
  : M (list tweet_data) :=
  match els with
  | [] => ret replies
  | a :: rest =>
      if Nat.eqb i 0 then reply_for rest (S i) replies
      else if replies_limit <=? Z.of_nat (length replies) then ret replies
      else
        r <- attempt (reply_body a) ;;
        match r with
        | Some (Some reply_data) => reply_for rest (S i) (replies ++ [reply_data])
        | Some None | None => reply_for rest (S i) replies
        end
  end.

(** The [while] loop of lines 312-404.  The result is [replies] and
    whether an exception left the loop. *)
Fixpoint reply_while (fuel : nat) (replies : list tweet_data) (scroll_attempts : Z)
  : M (list tweet_data * bool) :=
  match fuel with
  | O => out_of_fuel
  | S fuel' =>
      if (scroll_attempts <? 10) && (Z.of_nat (length replies) <? replies_limit) then
        found <- attempt find_tweets ;;
        match found with
        | None => ret (replies, true)
        | Some reply_elements =>
            replies <- reply_for reply_elements 0 replies ;;
            scrolled <- attempt (scroll_down ;;;
                                 current_height <- read_height ;;
                                 again <- read_height ;;
                                 ret (current_height =? again)) ;;
            match scrolled with
            | None => ret (replies, true)
            | Some same =>
                reply_while fuel' replies (if same then scroll_attempts + 1 else 0)
            end
        end
      else ret (replies, false)
  end.

(** The handler of lines 410-415. *)
Definition restore_main_window : M unit :=
  hs <- window_handles ;;
  if 1 <? Z.of_nat (length hs) then
    close_window ;;;
    hs <- window_handles ;;
    h <- lift_option (head hs) ;;
    switch_to h
  else ret tt.

Definition get_twitter_replies (fuel : nat) (tweet_url : string) : M (list tweet_data) :=
  opened <- attempt (open_tab tweet_url ;;;
                     hs <- window_handles ;;
                     h <- lift_option (last hs) ;;
                     switch_to h) ;;
  match opened with
  | None => restore_main_window ;;; ret []
  | Some _ =>
      out <- reply_while fuel [] 0 ;;
      let '(replies, escaped) := out in
      if escaped : bool then restore_main_window ;;; ret replies
      else
        closed <- attempt (close_window ;;;
                           hs <- window_handles ;;
                           h <- lift_option (head hs) ;;
                           switch_to h) ;;
        match closed with
        | None => restore_main_window ;;; ret replies
        | Some _ => ret replies
        end
  end.

End Replies.

(** *** scrape_twitter *)

Section Feed.

Variables (limit replies_limit : Z) (english_only : bool).
Variable thread_fuel : nat.

(** Is the element marked as a reply (lines 199-205)? *)
Definition is_reply (a : article) : bool :=
  match a_social a with
  | Found t => PyStr.contains "Replying to" t
  | Raises => false
  end.

(** Lines 183-252 for one element: the link and the dictionary of a
    new top-level tweet, [None] for [continue]. *)
Definition tweet_body (processed_tweets : gset string) (a : article)
  : M (option (string * tweet_data)) :=
  tweet_links <- lift (a_links a) ;;
  match tweet_links with
  | [] => ret None
  | link :: _ =>
      tweet_url <- lift link ;;
      match Regex.status_id tweet_url with
      | None => ret None
      | Some tweet_id =>
          if bool_decide (tweet_id ∈ processed_tweets) then ret None
          else if is_reply a then ret None
          else
            let username := resolve_username a in
            let text := resolve_text a in
            skip <- language_skip english_only text ;;
            if skip then ret None
            else
              timestamp <- resolve_timestamp a ;;
              metrics <- get_metrics a ;;
              ret (Some (tweet_url,
                         {| id := tweet_id;
                            speaker_nm := username;
                            conversation_id := tweet_id;
                            reply_to_id := None;
                            reply_to_nm := None;
                            timestamp := timestamp;
                            text := text;
                            likes := like metrics;
                            shares := retweet metrics;
                            num_comments := reply metrics |}))
      end
  end.

(** The [for] loop of lines 177-269. *)
Fixpoint tweet_for (els : list article)
    (tweets_list : list tweet_data) (processed_tweets : gset string)
  : M (list tweet_data * gset string) :=
  match els with
  | [] => ret (tweets_list, processed_tweets)
  | a :: rest =>
      if limit <=? Z.of_nat (size processed_tweets)
      then ret (tweets_list, processed_tweets)
      else
        r <- attempt (tweet_body processed_tweets a) ;;
        match r with
        | Some (Some (tweet_url, data)) =>
            let tweets_list := tweets_list ++ [data] in
            let processed_tweets := {[id data]} ∪ processed_tweets in
            if 0 <? num_comments data then
              replies <- attempt (get_twitter_replies (id data) (speaker_nm data)
                                    replies_limit english_only thread_fuel tweet_url) ;;
              match replies with
              | Some replies => tweet_for rest (tweets_list ++ replies) processed_tweets
              | None => tweet_for rest tweets_list processed_tweets
              end
            else tweet_for rest tweets_list processed_tweets
        | Some None | None => tweet_for rest tweets_list processed_tweets
        end
  end.

(** The [while] loop of lines 169-288. *)
Fixpoint tweet_while (fuel : nat)
    (tweets_list : list tweet_data) (processed_tweets : gset string)
    (scroll_attempts previous_height : Z)
  : M (list tweet_data) :=
  match fuel with
  | O => out_of_fuel
  | S fuel' =>
      if (Z.of_nat (size processed_tweets) <? limit) && (scroll_attempts <? 50) then
        found <- attempt find_tweets ;;
        match found with
        | None =>
            tweet_while fuel' tweets_list processed_tweets
              (scroll_attempts + 1) previous_height
        | Some tweet_elements =>
            out <- tweet_for tweet_elements tweets_list processed_tweets ;;
            let '(tweets_list, processed_tweets) := out in
            scrolled <- attempt (scroll_down ;;; read_height) ;;
            match scrolled with
            | None =>
                tweet_while fuel' tweets_list processed_tweets
                  (scroll_attempts + 1) previous_height
            | Some current_height =>
                tweet_while fuel' tweets_list processed_tweets
                  (if current_height =? previous_height
                   then scroll_attempts + 1 else 0)
                  current_height
            end
        end
      else ret tweets_list
  end.

End Feed.

Definition search_url (topic formatted_start formatted_end : string)
    (english_only : bool) : string :=
  let lang_filter := if english_only then "%20lang%3Aen" else "" in
  "https://twitter.com/search?q=" +:+ topic +:+ lang_filter
    +:+ "%20until%3A" +:+ formatted_end
    +:+ "%20since%3A" +:+ formatted_start +:+ "&src=typed_query&f=top".

Definition scrape_twitter (fuel : nat) (topic start_date end_date : string)
    (limit replies_limit : Z) (headless english_only : bool) : M (list tweet_data) :=
  formatted_start <- lift (strptime env start_date) ;;
  formatted_end <- lift (strptime env end_date) ;;
  setup_driver headless ;;;
  reached <- attempt (driver_get (search_url topic formatted_start formatted_end english_only) ;;;
                      attempt (dismiss "Dismiss") ;;;
                      attempt (dismiss "Not now")) ;;
  match reached with
  | None => quit ;;; ret []
  | Some _ =>
      previous_height <- read_height ;;
      tweets_list <- tweet_while limit replies_limit english_only fuel fuel
                       [] ∅ 0 previous_height ;;
      quit ;;;
      ret tweets_list
  end.

(** *** main *)

(** [main] after [parse_arguments]; the result is [all_data], the list
    handed to [save_to_csv]. *)
Definition main (fuel : nat) (args : Args.t) : M (list tweet_data) :=
  let limit := if Args.limit args =? 50 then 120 else Args.limit args in
  twitter_data <- attempt (scrape_twitter fuel (Args.topic args) (Args.start_date args)
                             (Args.end_date args) limit (Args.replies_limit args)
                             (Args.headless args) true) ;;
  ret (default [] twitter_data).

End Scraper.

(** * Reasoning about runs *)

(** [post m w Q X]: started in [w], the computation [m] ends with a value
    and a world in [Q], or with an exception in a world in [X] (or its
    fuel runs out). *)
Definition post {A} (m : M A) (w : world)
    (Q : A → world → Prop) (X : world → Prop) : Prop :=
  match m w with
  | Ok a w' => Q a w'
  | Exn w' => X w'
  | Fuel => True
  end.

Section PostRules.

Context {A B : Type}.
Implicit Types (Q : A → world → Prop) (X : world → Prop).

Lemma post_ret (a : A) w Q X : Q a w → post (ret a) w Q X.
Proof. done. Qed.

Lemma post_raise w Q X : X w → post (@raise A) w Q X.
Proof. done. Qed.

Lemma post_fuel w Q X : post (@out_of_fuel A) w Q X.
Proof. done. Qed.

Lemma post_bind (m : M A) (k : A → M B) w (R : B → world → Prop) X :
  post m w (λ a w', post (k a) w' R X) X → post (bind m k) w R X.
Proof. unfold post, bind. by destruct (m w). Qed.

Lemma post_attempt (m : M A) w (R : option A → world → Prop) X :
  post m w (λ a w', R (Some a) w') (λ w', R None w') → post (attempt m) w R X.
Proof. unfold post, attempt. by destruct (m w). Qed.

Lemma post_any (m : M A) w Q X :
  (∀ a w', Q a w') → (∀ w', X w') → post m w Q X.
Proof. unfold post. intros HQ HX. by destruct (m w). Qed.

Lemma post_mono (m : M A) w Q Q' X X' :
  post m w Q X → (∀ a w', Q a w' → Q' a w') → (∀ w', X w' → X' w') →
  post m w Q' X'.
Proof. unfold post. intros H HQ HX. destruct (m w); auto. Qed.

Lemma post_ok (m : M A) w Q X a w' : post m w Q X → m w = Ok a w' → Q a w'.
Proof. unfold post. intros H E. by rewrite E in H. Qed.


End PostRules.

(** Whatever the first computation does, the second one is specified. *)
Lemma post_bind_any {A B} (m : M A) (k : A → M B) w (R : B → world → Prop) X :
  (∀ a w', post (k a) w' R X) → (∀ w', X w') → post (bind m k) w R X.
Proof. intros Hk HX. apply post_bind, post_any; auto. Qed.

(** ** The shape of the records *)

(** A record of a top-level tweet. *)
Definition root_shape (r : tweet_data) : Prop :=
  conversation_id r = id r ∧ reply_to_id r = None ∧ reply_to_nm r = None.

(** A record of a reply in the thread of the root [(root_id, root_author)]. *)
Definition reply_shape (root_id root_author : string) (r : tweet_data) : Prop :=
  conversation_id r = root_id ∧ reply_to_id r = Some root_id
  ∧ reply_to_nm r = Some root_author.

Section ThreadResults.

Variable env : oracle.
Variables (parent_id parent_username : string).
Variables (replies_limit : Z) (english_only : bool).

(** What holds of [replies] all along [get_twitter_replies]. *)
Definition thread_ok (replies : list tweet_data) : Prop :=
  Z.of_nat (length replies) ≤ Z.max 0 replies_limit
  ∧ Forall (reply_shape parent_id parent_username) replies.

Lemma thread_ok_nil : thread_ok [].
Proof. split; [simpl; lia | constructor]. Qed.

Lemma thread_ok_snoc replies r :
  thread_ok replies →
  ¬ replies_limit ≤ Z.of_nat (length replies) →
  reply_shape parent_id parent_username r →
  thread_ok (replies ++ [r]).
Proof.
  intros [Hlen Hall] Hlt Hr. split.
  - rewrite length_app. simpl. lia.
  - apply Forall_app. split; [done | by constructor].
Qed.

Lemma reply_body_shape a w :
  post (reply_body env parent_id parent_username english_only a) w
    (λ r _, ∀ x, r = Some x → reply_shape parent_id parent_username x)
    (λ _, True).
Proof.
  unfold reply_body.
  apply post_bind_any; [intros links w1 | done].
  destruct links as [|link ?]; [by apply post_ret |].
  apply post_bind_any; [intros reply_url w2 | done].
  apply post_bind_any; [intros reply_id w3 | done].
  apply post_bind_any; [intros skip w4 | done].
  destruct skip; [by apply post_ret |].
  apply post_bind_any; [intros ts w5 | done].
  apply post_bind_any; [intros m w6 | done].
  apply post_ret. intros x [= <-]. by repeat split.
Qed.

Lemma reply_for_ok els : ∀ i replies w,
  thread_ok replies →
  post (reply_for env parent_id parent_username replies_limit english_only els i replies) w
    (λ out _, thread_ok out) (λ _, False).
Proof.
  induction els as [|a rest IH]; intros i replies w Hok; simpl.
  - by apply post_ret.
  - destruct (Nat.eqb i 0); [by apply IH |].
    destruct (Z.leb_spec replies_limit (Z.of_nat (length replies))) as [Hfull|Hroom];
      [by apply post_ret |].
    apply post_bind, post_attempt.
    eapply post_mono; [apply reply_body_shape | | ].
    + intros [r|] w' Hr; simpl; apply IH; [|done].
      apply thread_ok_snoc; [done | lia | by apply Hr].
    + intros w' _. by apply IH.
Qed.

Lemma reply_while_ok fuel : ∀ replies scroll_attempts w,
  thread_ok replies →
  post (reply_while env parent_id parent_username replies_limit english_only
          fuel replies scroll_attempts) w
    (λ out _, thread_ok out.1) (λ _, False).
Proof.
  induction fuel as [|fuel IH]; intros replies n w Hok; simpl; [done |].
  destruct (_ && _); [| by apply post_ret].
  apply post_bind, post_attempt, post_any; [| intros; by apply post_ret].
  intros els w1. apply post_bind.
  eapply post_mono; [by apply reply_for_ok | | done].
  intros replies1 w2 Hok1. simpl.
  apply post_bind, post_attempt, post_any; [| intros; by apply post_ret].
  intros same w3. by apply IH.
Qed.

Lemma get_twitter_replies_ok fuel tweet_url w :
  post (get_twitter_replies env parent_id parent_username replies_limit english_only
          fuel tweet_url) w
    (λ out _, thread_ok out) (λ _, True).
Proof.
  unfold get_twitter_replies.
  apply post_bind, post_attempt, post_any.
  - intros _ w1. apply post_bind.
    eapply post_mono; [apply reply_while_ok, thread_ok_nil | | done].
    intros [replies escaped] w2 Hok. simpl in *.
    destruct escaped.
    + apply post_bind_any; [intros; by apply post_ret | done].
    + apply post_bind, post_attempt, post_any.
      * intros; by apply post_ret.
      * intros. apply post_bind_any; [intros; by apply post_ret | done].
  - intros w1. apply post_bind_any; [| done].
    intros; apply post_ret, thread_ok_nil.
Qed.

End ThreadResults.

(** ** The output of the search crawler, thread by thread *)

(** A top-level tweet with the replies collected for it. *)
Definition block : Type := tweet_data * list tweet_data.

Definition flatten (bs : list block) : list tweet_data :=
  concat (map (λ b : block, b.1 :: b.2) bs).

Definition roots (bs : list block) : list string := map (λ b : block, id b.1) bs.

Definition block_ok (replies_limit : Z) (b : block) : Prop :=
  root_shape b.1 ∧ thread_ok (id b.1) (speaker_nm b.1) replies_limit b.2.

(** What holds of [tweets_list] and [processed_tweets] all along
    [scrape_twitter]: the list is a sequence of threads, each a root
    followed by its replies, the roots differ from each other, and the
    set holds the ids of the roots. *)
Definition feed_ok (replies_limit : Z)
    (tweets_list : list tweet_data) (processed_tweets : gset string) : Prop :=
  ∃ bs, tweets_list = flatten bs
        ∧ Forall (block_ok replies_limit) bs
        ∧ NoDup (roots bs)
        ∧ processed_tweets = list_to_set (roots bs).

Lemma flatten_snoc bs d replies :
  flatten (bs ++ [(d, replies)]) = (flatten bs ++ [d]) ++ replies.
Proof.
  unfold flatten. rewrite map_app, concat_app. simpl.
  by rewrite app_nil_r, <- app_assoc.
Qed.

Lemma feed_ok_empty replies_limit : feed_ok replies_limit [] ∅.
Proof. exists []. split; [done | split; [constructor | split; [constructor | done]]]. Qed.

Lemma feed_ok_add replies_limit tweets_list processed_tweets d replies :
  feed_ok replies_limit tweets_list processed_tweets →
  root_shape d →
  id d ∉ processed_tweets →
  thread_ok (id d) (speaker_nm d) replies_limit replies →
  feed_ok replies_limit ((tweets_list ++ [d]) ++ replies) ({[id d]} ∪ processed_tweets).
Proof.
  intros (bs & -> & Hbs & Hnd & ->) Hroot Hnew Hreplies.
  exists (bs ++ [(d, replies)]). split; [| split; [| split]].
  - by rewrite flatten_snoc.
  - apply Forall_app. split; [done |]. constructor; [by split | constructor].
  - unfold roots. rewrite map_app. simpl. apply NoDup_app. split; [done | split].
    + intros x Hx Hd. apply list_elem_of_singleton in Hd as ->.
      apply Hnew. by apply elem_of_list_to_set.
    + apply NoDup_singleton.
  - unfold roots. rewrite map_app, list_to_set_app_L. simpl.
    rewrite union_empty_r_L. apply (comm_L (∪)).
Qed.

Section FeedResults.

Variable env : oracle.
Variables (limit replies_limit : Z) (english_only : bool).
Variable thread_fuel : nat.

Lemma tweet_body_new processed_tweets a w :
  post (tweet_body env english_only processed_tweets a) w
    (λ r _, ∀ url d, r = Some (url, d) → root_shape d ∧ id d ∉ processed_tweets)
    (λ _, True).
Proof.
  unfold tweet_body.
  apply post_bind_any; [intros links w1 | done].
  destruct links as [|link ?]; [by apply post_ret |].
  apply post_bind_any; [intros tweet_url w2 | done].
  destruct (Regex.status_id tweet_url) as [tweet_id|]; [| by apply post_ret].
  case_bool_decide as Hseen; [by apply post_ret |].
  destruct (is_reply a); [by apply post_ret |].
  apply post_bind_any; [intros skip w3 | done].
  destruct skip; [by apply post_ret |].
  apply post_bind_any; [intros ts w4 | done].
  apply post_bind_any; [intros m w5 | done].
  apply post_ret. intros url d [= <- <-]. by repeat split.
Qed.

Lemma tweet_for_ok els : ∀ tweets_list processed_tweets w,
  feed_ok replies_limit tweets_list processed_tweets →
  post (tweet_for env limit replies_limit english_only thread_fuel
          els tweets_list processed_tweets) w
    (λ out _, feed_ok replies_limit out.1 out.2) (λ _, False).
Proof.
  induction els as [|a rest IH]; intros tweets_list processed_tweets w Hok; simpl.
  - by apply post_ret.
  - destruct (_ <=? _); [by apply post_ret |].
    apply post_bind, post_attempt.
    eapply post_mono; [apply tweet_body_new | | ].
    + intros [[url d]|] w1 Hr; simpl; [| by apply IH].
      destruct (Hr url d eq_refl) as [Hroot Hnew].
      destruct (0 <? num_comments d).
      * apply post_bind, post_attempt.
        eapply post_mono; [apply get_twitter_replies_ok | | ].
        -- intros replies w2 Hreplies. simpl. apply IH. by apply feed_ok_add.
        -- intros w2 _. simpl. apply IH.
           rewrite <- (app_nil_r (tweets_list ++ [d])).
           apply feed_ok_add; auto using thread_ok_nil.
      * apply IH. rewrite <- (app_nil_r (tweets_list ++ [d])).
        apply feed_ok_add; auto using thread_ok_nil.
    + intros w1 _. by apply IH.
Qed.

Lemma tweet_while_ok fuel : ∀ tweets_list processed_tweets scroll_attempts previous_height w,
  feed_ok replies_limit tweets_list processed_tweets →
  post (tweet_while env limit replies_limit english_only thread_fuel fuel
          tweets_list processed_tweets scroll_attempts previous_height) w
    (λ out _, ∃ processed, feed_ok replies_limit out processed) (λ _, False).
Proof.
  induction fuel as [|fuel IH]; intros tweets_list processed_tweets n h w Hok; simpl;
    [done |].
  destruct (_ && _); [| apply post_ret; eauto].
  apply post_bind, post_attempt, post_any; [| intros; by apply IH].
  intros els w1. apply post_bind.
  eapply post_mono; [by apply tweet_for_ok | | done].
  intros [tweets1 processed1] w2 Hok1. simpl in *.
  apply post_bind, post_attempt, post_any; intros; by apply IH.
Qed.

End FeedResults.

Lemma scrape_twitter_ok env fuel topic start_date end_date limit replies_limit
    headless english_only w :
  post (scrape_twitter env fuel topic start_date end_date limit replies_limit
          headless english_only) w
    (λ out _, ∃ processed, feed_ok replies_limit out processed) (λ _, True).
Proof.
  unfold scrape_twitter.
  apply post_bind_any; [intros fs w1 | done].
  apply post_bind_any; [intros fe w2 | done].
  apply post_bind_any; [intros _ w3 | done].
  apply post_bind_any; [intros reached w4 | done].
  destruct reached.
  - apply post_bind_any; [intros h w5 | done].
    apply post_bind.
    eapply post_mono; [apply tweet_while_ok, feed_ok_empty | | done].
    intros out w6 Hout. simpl.
    apply post_bind_any; [intros; by apply post_ret | done].
  - apply post_bind_any; [| done].
    intros. apply post_ret. eauto using feed_ok_empty.
Qed.

(** ** What a run asks about languages *)

(** An event that has to do with the language filter is fine when the
    filter is on and the text at hand is not empty. *)
Definition lang_event_ok (english_only : bool) (ev : event) : Prop :=
  match ev with
  | EDetect t | ELangSkip t => english_only = true ∧ t ≠ ""
  | _ => True
  end.

Section History.

Variable env : oracle.
Variable english_only : bool.

Definition hist_ok (w : world) : Prop :=
  Forall (lang_event_ok english_only) (history w).

(** [keeps m]: every event that [m] adds to the history is fine. *)
Definition keeps {A} (m : M A) : Prop :=
  ∀ w, hist_ok w → post m w (λ _ w', hist_ok w') hist_ok.

Lemma keeps_ret {A} (a : A) : keeps (ret a).
Proof. by intros w Hw. Qed.

Lemma keeps_raise {A} : keeps (@raise A).
Proof. by intros w Hw. Qed.

Lemma keeps_fuel {A} : keeps (@out_of_fuel A).
Proof. by intros w Hw. Qed.

Lemma keeps_get_world : keeps get_world.
Proof. by intros w Hw. Qed.

Lemma keeps_bind {A B} (m : M A) (k : A → M B) :
  keeps m → (∀ a, keeps (k a)) → keeps (bind m k).
Proof.
  intros Hm Hk w Hw. apply post_bind.
  eapply post_mono; [by apply Hm | | done].
  intros a w' Hw'. by apply Hk.
Qed.

Lemma keeps_attempt {A} (m : M A) : keeps m → keeps (attempt m).
Proof.
  intros Hm w Hw. apply post_attempt.
  eapply post_mono; [by apply Hm | done | done].
Qed.

Lemma keeps_lift {A} (x : lookup A) : keeps (lift x).
Proof. destruct x; [apply keeps_ret | apply keeps_raise]. Qed.

Lemma keeps_lift_option {A} (x : option A) : keeps (lift_option x).
Proof. destruct x; [apply keeps_ret | apply keeps_raise]. Qed.

Lemma hist_ok_record ev w :
  lang_event_ok english_only ev → hist_ok w → hist_ok (record_event ev w).
Proof. intros Hev Hw. by constructor. Qed.

Lemma keeps_log ev : lang_event_ok english_only ev → keeps (log ev).
Proof. intros Hev w Hw. by apply hist_ok_record. Qed.

Lemma keeps_call ev : lang_event_ok english_only ev → keeps (call env ev).
Proof.
  intros Hev w Hw. unfold post, call.
  destruct (raises env _); by apply hist_ok_record.
Qed.

Lemma keeps_page_call ev : lang_event_ok english_only ev → keeps (page_call env ev).
Proof.
  intros Hev w Hw. unfold post, page_call.
  destruct (_ || _); by apply hist_ok_record.
Qed.

(** A change of the windows leaves the history alone. *)
Lemma keeps_windows (f : world → res unit) :
  (∀ w, match f w with
        | Ok _ w' | Exn w' => history w' = history w
        | Fuel => True
        end) →
  keeps f.
Proof.
  intros Hf w Hw. unfold post, hist_ok. specialize (Hf w).
  destruct (f w); try rewrite Hf; done.
Qed.

Create HintDb keeps discriminated.

Ltac keeps_step :=
  first
    [ apply keeps_ret | apply keeps_raise | apply keeps_fuel | apply keeps_get_world
    | apply keeps_lift | apply keeps_lift_option
    | apply keeps_log; done | apply keeps_call; done | apply keeps_page_call; done
    | solve [auto 1 with keeps nocore]
    | apply keeps_attempt
    | apply keeps_bind; [| intros ?]
    | apply keeps_windows; intros ?; simpl; try case_bool_decide; done
    | match goal with
      | |- keeps (match ?x with _ => _ end) => is_var x; destruct x
      end ].

Ltac keeps_tac := repeat keeps_step.

Lemma keeps_setup_driver headless : keeps (setup_driver env headless).
Proof. unfold setup_driver. keeps_tac. Qed.

Lemma keeps_driver_get url : keeps (driver_get env url).
Proof. unfold driver_get. keeps_tac. Qed.

Lemma keeps_dismiss label : keeps (dismiss env label).
Proof. unfold dismiss. keeps_tac. Qed.

Lemma keeps_find_tweets : keeps (find_tweets env).
Proof. unfold find_tweets. keeps_tac. Qed.

Lemma keeps_scroll_down : keeps (scroll_down env).
Proof. unfold scroll_down. keeps_tac. Qed.

Lemma keeps_read_height : keeps (read_height env).
Proof. unfold read_height. keeps_tac. Qed.

Lemma keeps_open_tab url : keeps (open_tab env url).
Proof. unfold open_tab. keeps_tac. Qed.

Lemma keeps_window_handles : keeps (window_handles env).
Proof. unfold window_handles. keeps_tac. Qed.

Lemma keeps_switch_to h : keeps (switch_to env h).
Proof. unfold switch_to. keeps_tac. Qed.

Lemma keeps_close_window : keeps (close_window env).
Proof. unfold close_window. keeps_tac. Qed.

Lemma keeps_quit : keeps (quit env).
Proof. unfold quit. keeps_tac. Qed.

#[local] Hint Resolve keeps_setup_driver keeps_driver_get keeps_dismiss
  keeps_find_tweets keeps_scroll_down keeps_read_height keeps_open_tab
  keeps_window_handles keeps_switch_to keeps_close_window keeps_quit : keeps.

Lemma truthy_nonempty t : PyStr.truthy t = true → t ≠ "".
Proof. by destruct t. Qed.

(** The filter asks langdetect only when it is on and the text is not
    empty, and only then does it skip. *)
Lemma keeps_language_skip t : keeps (language_skip env english_only t).
Proof.
  unfold language_skip.
  destruct (english_only && PyStr.truthy t) eqn:Hguard; [| apply keeps_ret].
  apply andb_prop in Hguard as [Heo Ht]. apply truthy_nonempty in Ht.
  assert (lang_event_ok english_only (EDetect t)) by done.
  assert (lang_event_ok english_only (ELangSkip t)) by done.
  unfold is_english_text. keeps_tac.
Qed.

Lemma keeps_secondary_loop keys a : ∀ m, keeps (secondary_loop keys a m).
Proof. induction keys as [|k keys IH]; intros m; simpl; keeps_tac. Qed.

Lemma keeps_get_metrics a : keeps (get_metrics a).
Proof.
  unfold get_metrics. keeps_tac.
  destruct (a_group a); [| apply keeps_ret].
  destruct (primary_loop _ _ _) as [m escaped].
  destruct escaped; [apply keeps_ret |].
  destruct (all_zero m); [apply keeps_secondary_loop | apply keeps_ret].
Qed.

Lemma keeps_resolve_timestamp a : keeps (resolve_timestamp env a).
Proof. unfold resolve_timestamp. destruct (a_time a); keeps_tac. Qed.

#[local] Hint Resolve keeps_language_skip keeps_get_metrics
  keeps_resolve_timestamp : keeps.

Section Thread.

Variables (parent_id parent_username : string) (replies_limit : Z).

Lemma keeps_reply_body a :
  keeps (reply_body env parent_id parent_username english_only a).
Proof. unfold reply_body. keeps_tac. Qed.

#[local] Hint Resolve keeps_reply_body : keeps.

Lemma keeps_reply_for els : ∀ i replies,
  keeps (reply_for env parent_id parent_username replies_limit english_only
           els i replies).
Proof.
  induction els as [|a rest IH]; intros i replies; simpl; keeps_tac.
  destruct (Nat.eqb i 0); [apply IH |].
  destruct (_ <=? _); keeps_tac.
Qed.

#[local] Hint Resolve keeps_reply_for : keeps.

Lemma keeps_reply_while fuel : ∀ replies scroll_attempts,
  keeps (reply_while env parent_id parent_username replies_limit english_only
           fuel replies scroll_attempts).
Proof.
  induction fuel as [|fuel IH]; intros replies n; simpl; keeps_tac.
  destruct (_ && _); keeps_tac.
Qed.

Lemma keeps_restore_main_window : keeps (restore_main_window env).
Proof.
  unfold restore_main_window. keeps_tac.
  destruct (_ <? _); keeps_tac.
Qed.

#[local] Hint Resolve keeps_reply_while keeps_restore_main_window : keeps.

Lemma keeps_get_twitter_replies fuel tweet_url :
  keeps (get_twitter_replies env parent_id parent_username replies_limit
           english_only fuel tweet_url).
Proof. unfold get_twitter_replies. keeps_tac. Qed.

End Thread.

#[local] Hint Resolve keeps_get_twitter_replies : keeps.

Section Feed.

Variables (limit replies_limit : Z) (thread_fuel : nat).

Lemma keeps_tweet_body processed_tweets a :
  keeps (tweet_body env english_only processed_tweets a).
Proof.
  unfold tweet_body. keeps_tac.
  destruct (Regex.status_id _); keeps_tac.
  case_bool_decide; keeps_tac.
  destruct (is_reply a); keeps_tac.
Qed.

#[local] Hint Resolve keeps_tweet_body : keeps.

Lemma keeps_tweet_for els : ∀ tweets_list processed_tweets,
  keeps (tweet_for env limit replies_limit english_only thread_fuel
           els tweets_list processed_tweets).
Proof.
  induction els as [|a rest IH]; intros tweets_list processed_tweets; simpl; keeps_tac.
  destruct (_ <=? _); keeps_tac.
  destruct (0 <? num_comments _); keeps_tac.
Qed.

#[local] Hint Resolve keeps_tweet_for : keeps.

Lemma keeps_tweet_while fuel : ∀ tweets_list processed_tweets scroll_attempts previous_height,
  keeps (tweet_while env limit replies_limit english_only thread_fuel fuel
           tweets_list processed_tweets scroll_attempts previous_height).
Proof.
  induction fuel as [|fuel IH]; intros tweets_list processed_tweets n h; simpl; keeps_tac.
  destruct (_ && _); keeps_tac.
Qed.

End Feed.

#[local] Hint Resolve keeps_tweet_while : keeps.

Lemma keeps_scrape_twitter fuel topic start_date end_date limit replies_limit headless :
  keeps (scrape_twitter env fuel topic start_date end_date limit replies_limit
           headless english_only).
Proof. unfold scrape_twitter. keeps_tac. Qed.

End History.

(** ** The two strategies of get_metrics *)

(** The dictionary that the grouped strategy resolves, when no exception
    leaves it: the grouped query answers and the loop over its elements
    runs to its end. *)
Definition primary_resolved (a : article) : option metrics :=
  match a_group a with
  | Found group_elements =>
      match primary_loop group_elements false zero_metrics with
      | (m, false) => Some m
      | (_, true) => None
      end
  | Raises => None
  end.

(** The value that the per-metric strategy finds for one metric. *)
Definition secondary_value (a : article) (metric : string) : option Z :=
  match a_spans a metric with
  | Found els => span_count els
  | Raises => None
  end.

(** The queries of the per-metric strategy, newest first. *)
Definition span_queries : list event :=
  [ESpanQuery "like"; ESpanQuery "retweet"; ESpanQuery "reply"].

Definition add_events (evs : list event) (w : world) : world :=
  {| history := evs ++ history w; handles := handles w;
     focus := focus w; fresh := fresh w |}.

Lemma primary_loop_bound els : ∀ m, (primary_loop els true m).2 = false.
Proof.
  induction els as [|el rest IH]; intros m; simpl; [done |].
  destruct (el_testid el); apply IH.
Qed.

(** An exception leaves the grouped loop only before [test_id] is bound,
    when the dictionary still holds what it held at the start. *)
Lemma primary_loop_escaped els m0 m :
  primary_loop els false m0 = (m, true) → m = m0.
Proof.
  destruct els as [|el rest]; simpl; [done |].
  destruct (el_testid el) as [tid|]; [| by intros [= <-]].
  intros Heq. pose proof (primary_loop_bound rest
    match tid with
    | Some key =>
        if is_metric_key key then
          match lookup_bind (el_text el) parse_primary with
          | Found (Some v) => set_metric key v m0
          | _ => m0
          end
        else m0
    | None => m0
    end) as Hb.
  by rewrite Heq in Hb.
Qed.

Lemma secondary_loop_run keys a : ∀ m w,
  ∃ m', secondary_loop keys a m w = Ok m' (add_events (rev (map ESpanQuery keys)) w)
        ∧ ((∀ key, key ∈ keys → secondary_value a key = None) → m' = m).
Proof.
  induction keys as [|key keys IH]; intros m w; simpl.
  - exists m. split; [by destruct w | done].
  - unfold bind, log. simpl.
    edestruct IH as (m' & -> & Hnone). exists m'. split.
    + f_equal. unfold add_events, record_event. simpl. f_equal.
      by rewrite <- app_assoc.
    + intros Hall. rewrite Hnone.
      * pose proof (Hall key ltac:(left)) as Hkey. unfold secondary_value in Hkey.
        destruct (a_spans a key); [by rewrite Hkey | done].
      * intros k Hk. apply Hall. by right.
Qed.

(** Property X18.  [get_metrics] is total: whatever the element answers,
    it returns a dictionary and lets no exception through. *)
Lemma get_metrics_returns (a : article) (w : world) :
  ∃ m w', get_metrics a w = Ok m w'.
Proof.
  unfold get_metrics, bind, log.
  destruct (a_group a) as [els|]; [| by eexists _, _].
  destruct (primary_loop els false zero_metrics) as [m1 escaped].
  destruct escaped; [by eexists _, _ |].
  destruct (all_zero m1); [| by eexists _, _].
  destruct (secondary_loop_run metric_keys a m1 (record_event EGroupQuery w))
    as (m & -> & _).
  by eexists _, _.
Qed.

(** * Runs that leave the windows alone, and runs that end *)

Definition same_windows (w w' : world) : Prop :=
  handles w' = handles w ∧ focus w' = focus w ∧ fresh w' = fresh w.

Lemma same_windows_refl w : same_windows w w.
Proof. done. Qed.

Lemma same_windows_trans w1 w2 w3 :
  same_windows w1 w2 → same_windows w2 w3 → same_windows w1 w3.
Proof. intros (? & ? & ?) (? & ? & ?). repeat split; congruence. Qed.

(** [calm m]: [m] needs no fuel and opens, closes and focuses no window. *)
Definition calm {A} (m : M A) : Prop :=
  ∀ w, match m w with
       | Ok _ w' | Exn w' => same_windows w w'
       | Fuel => False
       end.

Section Calm.

Variable env : oracle.

Lemma calm_ret {A} (a : A) : calm (ret a).
Proof. by intros w. Qed.

Lemma calm_raise {A} : calm (@raise A).
Proof. by intros w. Qed.

Lemma calm_get_world : calm get_world.
Proof. by intros w. Qed.

Lemma calm_bind {A B} (m : M A) (k : A → M B) :
  calm m → (∀ a, calm (k a)) → calm (bind m k).
Proof.
  intros Hm Hk w. unfold bind. specialize (Hm w).
  destruct (m w) as [a w1| |]; [| done | done].
  specialize (Hk a w1). destruct (k a w1); eauto using same_windows_trans.
Qed.

Lemma calm_attempt {A} (m : M A) : calm m → calm (attempt m).
Proof. intros Hm w. unfold attempt. specialize (Hm w). by destruct (m w). Qed.

Lemma calm_lift {A} (x : lookup A) : calm (lift x).
Proof. destruct x; [apply calm_ret | apply calm_raise]. Qed.

Lemma calm_lift_option {A} (x : option A) : calm (lift_option x).
Proof. destruct x; [apply calm_ret | apply calm_raise]. Qed.

Lemma calm_log ev : calm (log ev).
Proof. by intros w. Qed.

Lemma calm_call ev : calm (call env ev).
Proof. intros w. unfold call. by destruct (raises env _). Qed.

Lemma calm_page_call ev : calm (page_call env ev).
Proof. intros w. unfold page_call. by destruct (_ || _). Qed.

Create HintDb calm discriminated.

#[local] Hint Resolve calm_ret calm_raise calm_get_world calm_lift calm_lift_option
  calm_log calm_call calm_page_call : calm.

Ltac calm_step :=
  first
    [ solve [auto 1 with calm nocore]
    | apply calm_attempt
    | apply calm_bind; [| intros ?]
    | match goal with
      | |- calm (match ?x with _ => _ end) => is_var x; destruct x
      end ].

Ltac calm_tac := repeat calm_step.

Lemma calm_find_tweets : calm (find_tweets env).
Proof. unfold find_tweets. calm_tac. Qed.

Lemma calm_scroll_down : calm (scroll_down env).
Proof. unfold scroll_down. calm_tac. Qed.

Lemma calm_read_height : calm (read_height env).
Proof. unfold read_height. calm_tac. Qed.

Lemma calm_is_english_text t : calm (is_english_text env t).
Proof. unfold is_english_text. calm_tac. Qed.

#[local] Hint Resolve calm_find_tweets calm_scroll_down calm_read_height
  calm_is_english_text : calm.

Lemma calm_language_skip english_only t : calm (language_skip env english_only t).
Proof. unfold language_skip. destruct (_ && _); calm_tac. Qed.

Lemma calm_secondary_loop keys a : ∀ m, calm (secondary_loop keys a m).
Proof. induction keys as [|k keys IH]; intros m; simpl; calm_tac. Qed.

Lemma calm_get_metrics a : calm (get_metrics a).
Proof.
  unfold get_metrics. calm_tac.
  destruct (a_group a); [| apply calm_ret].
  destruct (primary_loop _ _ _) as [m escaped].
  destruct escaped; [apply calm_ret |].
  destruct (all_zero m); [apply calm_secondary_loop | apply calm_ret].
Qed.

Lemma calm_resolve_timestamp a : calm (resolve_timestamp env a).
Proof. unfold resolve_timestamp. destruct (a_time a); calm_tac. Qed.

#[local] Hint Resolve calm_language_skip calm_get_metrics calm_resolve_timestamp : calm.

Section Thread.

Variables (parent_id parent_username : string).
Variables (replies_limit : Z) (english_only : bool).

Lemma calm_reply_body a :
  calm (reply_body env parent_id parent_username english_only a).
Proof. unfold reply_body. calm_tac. Qed.

#[local] Hint Resolve calm_reply_body : calm.

Lemma calm_reply_for els : ∀ i replies,
  calm (reply_for env parent_id parent_username replies_limit english_only els i replies).
Proof.
  induction els as [|a rest IH]; intros i replies; simpl; calm_tac.
  destruct (Nat.eqb i 0); [apply IH |].
  destruct (_ <=? _); calm_tac.
Qed.

Lemma calm_post {A} (m : M A) w :
  calm m → post m w (λ _ w', same_windows w w') (λ w', same_windows w w').
Proof. intros Hm. unfold post. specialize (Hm w). by destruct (m w). Qed.

(** The loop of the thread crawler opens, closes and focuses no window. *)
Lemma reply_while_windows fuel : ∀ replies scroll_attempts w,
  post (reply_while env parent_id parent_username replies_limit english_only
          fuel replies scroll_attempts) w
    (λ _ w', same_windows w w') (λ w', same_windows w w').
Proof.
  induction fuel as [|fuel IH]; intros replies n w; simpl; [done |].
  destruct (_ && _); [| by apply post_ret].
  apply post_bind, post_attempt.
  eapply post_mono; [apply calm_post, calm_find_tweets | | ].
  - intros els w1 H1. simpl. apply post_bind.
    eapply post_mono; [apply calm_post, calm_reply_for | | ].
    + intros replies1 w2 H2. simpl. apply post_bind, post_attempt.
      eapply post_mono; [apply calm_post; calm_tac | | ].
      * intros same w3 H3. simpl in *.
        assert (same_windows w w3) as H4 by eauto using same_windows_trans.
        eapply post_mono; [apply IH | | ]; simpl; intros;
          eapply same_windows_trans; eauto.
      * intros w3 H3. simpl in *. apply post_ret. eauto using same_windows_trans.
    + intros w2 H2. simpl in *. eauto using same_windows_trans.
  - intros w1 H1. simpl. by apply post_ret.
Qed.

(** Two readings of the height with nothing in between agree. *)
Definition reads_stable : Prop :=
  ∀ h, scroll_height env (EHeight :: EHeight :: h) = scroll_height env (EHeight :: h).

(** Lines 394-399 on such a page: either a call raises or a stall is
    counted. *)
Lemma scroll_and_compare_stalls w :
  reads_stable →
  match (scroll_down env ;;; current_height <- read_height env ;;
         again <- read_height env ;; ret (current_height =? again)) w with
  | Ok same _ => same = true
  | Exn _ => True
  | Fuel => False
  end.
Proof.
  intros Hstable. unfold bind, scroll_down, read_height, page_call, get_world, ret, bind.
  simpl. repeat (destruct (_ || _); [done |]; simpl).
  rewrite Hstable. apply Z.eqb_refl.
Qed.

(** On such a page the loop of the thread crawler ends within ten
    passes: eleven units of fuel are enough. *)
Lemma reply_while_ends fuel : ∀ replies scroll_attempts w,
  reads_stable →
  (Z.to_nat (10 - scroll_attempts) < fuel)%nat →
  reply_while env parent_id parent_username replies_limit english_only
    fuel replies scroll_attempts w ≠ Fuel.
Proof.
  induction fuel as [|fuel IH]; intros replies n w Hstable Hfuel; simpl; [lia |].
  destruct (n <? 10) eqn:Hn; simpl; [| done].
  destruct (_ <? replies_limit); [| done].
  apply Z.ltb_lt in Hn.
  unfold bind at 1, attempt at 1.
  pose proof (calm_find_tweets w) as H1.
  destruct (find_tweets env w) as [els w1|w1|]; [| done | done].
  unfold bind at 1.
  pose proof (calm_reply_for els 0 replies w1) as H2.
  destruct (reply_for _ _ _ _ _ _ _ _ w1) as [replies1 w2|w2|]; [| done | done].
  unfold bind at 1, attempt at 1.
  pose proof (scroll_and_compare_stalls w2 Hstable) as H3.
  destruct (bind (scroll_down env) _ w2) as [same w3|w3|]; [| done | done].
  subst same. apply IH; [done | lia].
Qed.

End Thread.

End Calm.

(** [finite m]: [m] never runs out of fuel. *)
Definition finite {A} (m : M A) : Prop := ∀ w, m w ≠ Fuel.

Lemma calm_finite {A} (m : M A) : calm m → finite m.
Proof. intros Hm w Hw. specialize (Hm w). by rewrite Hw in Hm. Qed.

Lemma finite_ret {A} (a : A) : finite (ret a).
Proof. by intros w. Qed.

Lemma finite_bind {A B} (m : M A) (k : A → M B) :
  finite m → (∀ a, finite (k a)) → finite (bind m k).
Proof.
  intros Hm Hk w. unfold bind. specialize (Hm w).
  destruct (m w) as [a w1| |]; [apply Hk | done | done].
Qed.

(** The same, when the value of the first computation is known to lie in [P]. *)
Lemma finite_bind_in {A B} (m : M A) (k : A → M B) (P : A → Prop) :
  (∀ w, match m w with
        | Ok a _ => P a
        | Exn _ => True
        | Fuel => False
        end) →
  (∀ a, P a → finite (k a)) → finite (bind m k).
Proof.
  intros Hm Hk w. unfold bind. specialize (Hm w).
  destruct (m w) as [a w1| |]; [by apply Hk | done | done].
Qed.

Lemma finite_attempt {A} (m : M A) : finite m → finite (attempt m).
Proof. intros Hm w. unfold attempt. specialize (Hm w). by destruct (m w). Qed.

Lemma finite_windows {A} (f : world → res A) :
  (∀ w, f w ≠ Fuel) → finite f.
Proof. done. Qed.

(** The calls that handle windows ([window_handles], [switch_to.window],
    [close]) do not raise. *)
Definition window_calls_reliable (env : oracle) : Prop :=
  ∀ h, match h with
       | EHandles :: _ | ESwitch _ :: _ | EClose :: _ => raises env h = false
       | _ => True
       end.

Section Windows.

Variable env : oracle.

Ltac finite_tac :=
  repeat first
    [ apply finite_ret
    | apply calm_finite; solve [auto using calm_lift_option, calm_call, calm_page_call,
                                  calm_get_world, calm_ret, calm_raise]
    | apply finite_attempt
    | apply finite_bind; [| intros ?]
    | apply finite_windows; intros ?; simpl; try case_bool_decide; done
    | match goal with
      | |- finite (match ?x with _ => _ end) => is_var x; destruct x
      end ].

Lemma finite_open_tab url : finite (open_tab env url).
Proof. unfold open_tab. finite_tac. Qed.

Lemma finite_window_handles : finite (window_handles env).
Proof. unfold window_handles. finite_tac. Qed.

Lemma finite_switch_to h : finite (switch_to env h).
Proof. unfold switch_to. finite_tac. Qed.

Lemma finite_close_window : finite (close_window env).
Proof. unfold close_window. finite_tac. Qed.

Lemma finite_restore_main_window : finite (restore_main_window env).
Proof.
  unfold restore_main_window.
  apply finite_bind; [apply finite_window_handles | intros hs].
  destruct (_ <? _); [| apply finite_ret].
  apply finite_bind; [apply finite_close_window | intros _].
  apply finite_bind; [apply finite_window_handles | intros hs'].
  apply finite_bind; [apply calm_finite, calm_lift_option | intros h].
  apply finite_switch_to.
Qed.

(** On a page whose height holds still between two readings, the thread
    crawler ends: eleven units of fuel are enough. *)
Lemma get_twitter_replies_ends parent_id parent_username replies_limit english_only
    fuel tweet_url :
  reads_stable env → (10 < fuel)%nat →
  finite (get_twitter_replies env parent_id parent_username replies_limit
            english_only fuel tweet_url).
Proof.
  intros Hstable Hfuel. unfold get_twitter_replies.
  apply finite_bind.
  - apply finite_attempt.
    apply finite_bind; [apply finite_open_tab | intros _].
    apply finite_bind; [apply finite_window_handles | intros hs].
    apply finite_bind; [apply calm_finite, calm_lift_option | intros h].
    apply finite_switch_to.
  - intros [_|].
    + apply finite_bind.
      * intros w. apply reply_while_ends; [done | simpl; lia].
      * intros [replies escaped]. destruct escaped.
        -- apply finite_bind; [apply finite_restore_main_window | intros; apply finite_ret].
        -- apply finite_bind.
           ++ apply finite_attempt.
              apply finite_bind; [apply finite_close_window | intros _].
              apply finite_bind; [apply finite_window_handles | intros hs].
              apply finite_bind; [apply calm_finite, calm_lift_option | intros h].
              apply finite_switch_to.
           ++ intros [_|]; [apply finite_ret |].
              apply finite_bind; [apply finite_restore_main_window | intros; apply finite_ret].
    + apply finite_bind; [apply finite_restore_main_window | intros; apply finite_ret].
Qed.

(** *** When the window calls themselves do not raise *)

Hypothesis reliable : window_calls_reliable env.

Lemma window_handles_run w :
  window_handles env w = Ok (handles w) (record_event EHandles w).
Proof.
  unfold window_handles, bind, call. simpl.
  pose proof (reliable (EHandles :: history w)) as H. simpl in H. by rewrite H.
Qed.

Lemma switch_to_run h w :
  h ∈ handles w →
  switch_to env h w
  = Ok tt (set_windows (handles w) h (fresh w) (record_event (ESwitch h) w)).
Proof.
  intros Hin. unfold switch_to, bind, call. simpl.
  pose proof (reliable (ESwitch h :: history w)) as H. simpl in H. rewrite H.
  by rewrite bool_decide_eq_true_2.
Qed.

Lemma close_window_run w :
  focus w ∈ handles w →
  close_window env w
  = Ok tt (set_windows (filter (λ h, h ≠ focus w) (handles w)) (focus w) (fresh w)
             (record_event EClose w)).
Proof.
  intros Hin. unfold close_window, bind, page_call, focus_open. simpl.
  pose proof (reliable (EClose :: history w)) as H. simpl in H. rewrite H.
  by rewrite bool_decide_eq_true_2.
Qed.

Lemma filter_out_tab (main_window tab : nat) :
  main_window ≠ tab → filter (λ h, h ≠ tab) [main_window; tab] = [main_window].
Proof.
  intros Hne. rewrite filter_cons_True by done.
  rewrite filter_cons_False by (by intros ?). by rewrite filter_nil.
Qed.

(** Closing the thread tab and going back, lines 407-408 and 414-415. *)
Lemma close_and_return_run w main_window tab :
  handles w = [main_window; tab] → focus w = tab → main_window ≠ tab →
  ∃ w', (close_window env ;;; hs <- window_handles env ;;
         h <- lift_option (head hs) ;; switch_to env h) w = Ok tt w'
        ∧ handles w' = [main_window] ∧ focus w' = main_window.
Proof.
  intros Hhs Hfocus Hne. unfold bind at 1.
  rewrite close_window_run; [| rewrite Hhs, Hfocus; set_solver].
  unfold bind at 1. rewrite window_handles_run. simpl.
  rewrite Hhs, Hfocus, filter_out_tab by done. simpl.
  unfold bind. simpl.
  rewrite switch_to_run; simpl; [| set_solver].
  eexists. split; [done |]. done.
Qed.

Lemma restore_main_window_two w main_window tab :
  handles w = [main_window; tab] → focus w = tab → main_window ≠ tab →
  ∃ w', restore_main_window env w = Ok tt w'
        ∧ handles w' = [main_window] ∧ focus w' = main_window.
Proof.
  intros Hhs Hfocus Hne. unfold restore_main_window, bind at 1.
  rewrite window_handles_run. simpl. rewrite Hhs. simpl.
  apply (close_and_return_run (record_event EHandles w) main_window tab); done.
Qed.

Lemma restore_main_window_one w main_window :
  handles w = [main_window] →
  ∃ w', restore_main_window env w = Ok tt w' ∧ same_windows w w'.
Proof.
  intros Hhs. unfold restore_main_window, bind.
  rewrite window_handles_run. simpl. rewrite Hhs. simpl.
  eexists. split; [done |]. done.
Qed.

(** Moving into the tab that was opened last, line 302. *)
Lemma enter_tab_run w main_window tab :
  handles w = [main_window; tab] →
  ∃ w', (hs <- window_handles env ;; h <- lift_option (last hs) ;; switch_to env h) w
        = Ok tt w'
        ∧ handles w' = [main_window; tab] ∧ focus w' = tab ∧ fresh w' = fresh w.
Proof.
  intros Hhs. unfold bind at 1. rewrite window_handles_run, Hhs. simpl.
  unfold bind. simpl.
  rewrite switch_to_run; simpl; [| rewrite Hhs; set_solver].
  eexists. split; [done |]. by rewrite Hhs.
Qed.

Lemma post_and {A} (m : M A) w (Q1 Q2 : A → world → Prop) (X1 X2 : world → Prop) :
  post m w Q1 X1 → post m w Q2 X2 →
  post m w (λ a w', Q1 a w' ∧ Q2 a w') (λ w', X1 w' ∧ X2 w').
Proof. unfold post. by destruct (m w). Qed.

(** The guarantee of claim C4 where it holds: started with the window of
    the caller as the only window, the thread crawler never lets an
    exception through and returns with that window focused and no other
    window open, whichever of the other calls raise (opening the tab,
    finding elements, scrolling, reading heights, extracting fields). *)
Lemma cleanup_when_window_calls_reliable parent_id parent_username replies_limit
    english_only fuel tweet_url w main_window :
  handles w = [main_window] → focus w = main_window → fresh w ≠ main_window →
  post (get_twitter_replies env parent_id parent_username replies_limit
          english_only fuel tweet_url) w
    (λ _ w', handles w' = [main_window] ∧ focus w' = main_window)
    (λ _, False).
Proof.
  intros Hhs Hfocus Hfresh. unfold get_twitter_replies.
  apply post_bind, post_attempt. unfold post at 1, bind at 1.
  unfold open_tab, bind at 1, page_call.
  destruct (_ || _).
  - (* the tab did not open *)
    apply post_bind.
    destruct (restore_main_window_one (record_event (EOpen tweet_url) w) main_window)
      as (w1 & Hrun & Hsame); [done |].
    unfold post at 1. rewrite Hrun. apply post_ret.
    destruct Hsame as (-> & -> & _). done.
  - (* the tab is open *)
    simpl. rewrite Hhs. simpl.
    edestruct (enter_tab_run
                 (set_windows [main_window; fresh w] (focus w) (S (fresh w))
                    (record_event (EOpen tweet_url) w)) main_window (fresh w))
      as (w1 & -> & Hhs1 & Hfocus1 & _); [done |].
    apply post_bind.
    eapply post_mono;
      [ apply post_and;
          [ apply (reply_while_windows env parent_id parent_username replies_limit
                     english_only fuel [] 0 w1)
          | apply (reply_while_ok env parent_id parent_username replies_limit
                     english_only fuel [] 0 w1), thread_ok_nil ]
      | | by intros ? [_ ?] ].
    intros [replies escaped] w2 [(Hhs2 & Hfocus2 & _) _]. simpl.
    rewrite Hhs1 in Hhs2. rewrite Hfocus1 in Hfocus2.
    destruct escaped.
    + apply post_bind.
      destruct (restore_main_window_two w2 main_window (fresh w))
        as (w3 & Hrun & Hw3); [done | done | done |].
      unfold post at 1. rewrite Hrun. by apply post_ret.
    + apply post_bind, post_attempt.
      destruct (close_and_return_run w2 main_window (fresh w))
        as (w3 & Hrun & Hw3); [done | done | done |].
      unfold post at 1. rewrite Hrun. by apply post_ret.
Qed.

End Windows.

(** ** A page whose height never changes *)

Section ConstantHeight.

Variable env : oracle.
Variable height : Z.
Hypothesis constant : ∀ h, scroll_height env h = height.

Lemma constant_reads_stable : reads_stable env.
Proof. intros h. by rewrite !constant. Qed.

Lemma scroll_and_read_constant w :
  match (scroll_down env ;;; read_height env) w with
  | Ok current_height _ => current_height = height
  | Exn _ => True
  | Fuel => False
  end.
Proof.
  unfold bind, scroll_down, read_height, page_call, get_world, ret, bind. simpl.
  repeat (destruct (_ || _); [done |]; simpl). apply constant.
Qed.

Lemma read_height_constant w :
  match read_height env w with
  | Ok current_height _ => current_height = height
  | Exn _ => True
  | Fuel => False
  end.
Proof.
  unfold read_height, bind, page_call, get_world, ret. simpl.
  destruct (_ || _); [done |]. simpl. apply constant.
Qed.

Variables (limit replies_limit : Z) (english_only : bool) (thread_fuel : nat).
Hypothesis enough : (10 < thread_fuel)%nat.

Lemma calm_tweet_body processed_tweets a :
  calm (tweet_body env english_only processed_tweets a).
Proof.
  unfold tweet_body.
  apply calm_bind; [apply calm_lift | intros links].
  destruct links as [|link ?]; [apply calm_ret |].
  apply calm_bind; [apply calm_lift | intros tweet_url].
  destruct (Regex.status_id tweet_url); [| apply calm_ret].
  case_bool_decide; [apply calm_ret |].
  destruct (is_reply a); [apply calm_ret |].
  apply calm_bind; [apply calm_language_skip | intros skip].
  destruct skip; [apply calm_ret |].
  apply calm_bind; [apply calm_resolve_timestamp | intros ts].
  apply calm_bind; [apply calm_get_metrics | intros m].
  apply calm_ret.
Qed.

Lemma finite_tweet_for els : ∀ tweets_list processed_tweets,
  finite (tweet_for env limit replies_limit english_only thread_fuel
            els tweets_list processed_tweets).
Proof.
  induction els as [|a rest IH]; intros tweets_list processed_tweets; simpl;
    [apply finite_ret |].
  destruct (_ <=? _); [apply finite_ret |].
  apply finite_bind; [apply finite_attempt, calm_finite, calm_tweet_body |].
  intros [[[url d]|]|]; try apply IH.
  destruct (0 <? num_comments d); [| apply IH].
  apply finite_bind.
  - apply finite_attempt, get_twitter_replies_ends;
      [apply constant_reads_stable | done].
  - intros [replies|]; apply IH.
Qed.

(** Every pass of the loop of the search crawler counts a stall, so the
    loop ends within fifty passes. *)
Lemma tweet_while_ends fuel : ∀ tweets_list processed_tweets scroll_attempts w,
  (Z.to_nat (50 - scroll_attempts) < fuel)%nat →
  tweet_while env limit replies_limit english_only thread_fuel fuel
    tweets_list processed_tweets scroll_attempts height w ≠ Fuel.
Proof.
  induction fuel as [|fuel IH]; intros tweets_list processed_tweets n w Hfuel; simpl;
    [lia |].
  destruct (_ <? limit); simpl; [| done].
  destruct (n <? 50) eqn:Hn; [| done].
  apply Z.ltb_lt in Hn.
  unfold bind at 1, attempt at 1.
  pose proof (calm_find_tweets env w) as H1.
  destruct (find_tweets env w) as [els w1|w1|]; [| apply IH; lia | done].
  unfold bind at 1.
  pose proof (finite_tweet_for els tweets_list processed_tweets w1) as H2.
  destruct (tweet_for _ _ _ _ _ _ _ _ w1) as [[tweets1 processed1] w2|w2|];
    [| done | done].
  unfold bind at 1, attempt at 1.
  pose proof (scroll_and_read_constant w2) as H3.
  destruct (bind (scroll_down env) _ w2) as [current w3|w3|]; [| apply IH; lia | done].
  subst current. rewrite Z.eqb_refl. apply IH. lia.
Qed.

End ConstantHeight.

(** On pages whose height never changes the whole crawl ends: fifty-one
    units of fuel are enough, whatever the pages show and whichever calls
    raise. *)
Lemma scrape_twitter_ends env height fuel topic start_date end_date limit
    replies_limit headless english_only :
  (∀ h, scroll_height env h = height) → (50 < fuel)%nat →
  finite (scrape_twitter env fuel topic start_date end_date limit replies_limit
            headless english_only).
Proof.
  intros Hconstant Hfuel. unfold scrape_twitter.
  apply finite_bind; [apply calm_finite, calm_lift | intros fs].
  apply finite_bind; [apply calm_finite, calm_lift | intros fe].
  apply finite_bind.
  { unfold setup_driver. apply finite_bind; [apply calm_finite, calm_call | intros _].
    by apply finite_windows. }
  intros _. apply finite_bind.
  { apply finite_attempt, calm_finite. unfold driver_get, dismiss.
    repeat first [apply calm_bind; [| intros ?] | apply calm_attempt | apply calm_page_call]. }
  intros [_|].
  - apply (finite_bind_in _ _ (λ h, h = height));
      [by apply read_height_constant | intros ? ->].
    apply finite_bind.
    + intros w. apply (tweet_while_ends env height Hconstant); simpl; lia.
    + intros out. apply finite_bind; [| intros; apply finite_ret].
      unfold quit. apply finite_bind; [apply calm_finite, calm_call | intros _].
      by apply finite_windows.
  - apply finite_bind; [| intros; apply finite_ret].
    unfold quit. apply finite_bind; [apply calm_finite, calm_call | intros _].
    by apply finite_windows.
Qed.

(** Property X5.  The thread crawler from start to end.  When the window
    calls do not raise and the height holds still between two readings, the thread
    crawler, started with the window of the caller as the only window and
    with eleven units of fuel, returns a list within its quota and leaves
    the browser as it found it, whatever else raises. *)
Lemma get_twitter_replies_total env parent_id parent_username replies_limit
    english_only fuel tweet_url w main_window :
  window_calls_reliable env → reads_stable env → (10 < fuel)%nat →
  handles w = [main_window] → focus w = main_window → fresh w ≠ main_window →
  ∃ replies w',
    get_twitter_replies env parent_id parent_username replies_limit english_only
      fuel tweet_url w = Ok replies w'
    ∧ Z.of_nat (length replies) ≤ Z.max 0 replies_limit
    ∧ handles w' = [main_window] ∧ focus w' = main_window.
Proof.
  intros Hreliable Hstable Hfuel Hhs Hfocus Hfresh.
  pose proof (get_twitter_replies_ends env parent_id parent_username replies_limit
                english_only fuel tweet_url Hstable Hfuel w) as Hends.
  pose proof (cleanup_when_window_calls_reliable env Hreliable parent_id
                parent_username replies_limit english_only fuel tweet_url w
                main_window Hhs Hfocus Hfresh) as Hclean.
  pose proof (get_twitter_replies_ok env parent_id parent_username replies_limit
                english_only fuel tweet_url w) as Hok.
  unfold post in *.
  destruct (get_twitter_replies _ _ _ _ _ _ _ _) as [replies w'| |]; [| done | done].
  exists replies, w'. destruct Hok as [Hlen _]. by destruct Hclean.
Qed.

(** * What every record is made of *)

(** ** Strings and the two regular expressions *)

Lemma chars_of_chars l : PyStr.chars (PyStr.of_chars l) = l.
Proof. apply list_ascii_of_string_of_list_ascii. Qed.

Lemma of_chars_chars s : PyStr.of_chars (PyStr.chars s) = s.
Proof. apply string_of_list_ascii_of_string. Qed.

Lemma chars_append s t : PyStr.chars (s +:+ t) = PyStr.chars s ++ PyStr.chars t.
Proof. induction s as [|c s IH]; simpl; [done |]. by rewrite <- IH. Qed.

Lemma take_while_all p l : forallb p (PyStr.take_while p l) = true.
Proof.
  induction l as [|c l IH]; simpl; [done |].
  destruct (p c) eqn:Hc; simpl; [by rewrite Hc | done].
Qed.

Lemma take_drop_while p l : PyStr.take_while p l ++ PyStr.drop_while p l = l.
Proof.
  induction l as [|c l IH]; simpl; [done |].
  destruct (p c); simpl; [by rewrite IH | done].
Qed.

Lemma is_prefix_app p l : PyStr.is_prefix p (p ++ l) = true.
Proof.
  induction p as [|c p IH]; simpl; [done |].
  by rewrite Ascii.eqb_refl, IH.
Qed.

Lemma is_prefix_split p l :
  PyStr.is_prefix p l = true → l = p ++ drop (length p) l.
Proof.
  revert l. induction p as [|c p IH]; intros [|d l]; simpl; try done.
  intros H. apply andb_prop in H as [Hc Hp].
  apply Ascii.eqb_eq in Hc as ->. f_equal. by apply IH.
Qed.

Lemma is_prefix_longer p q r :
  PyStr.is_prefix (p ++ q) (p ++ q ++ r) = true.
Proof. rewrite app_assoc. apply is_prefix_app. Qed.

Lemma find_sub_here p l : PyStr.is_prefix p l = true → PyStr.find_sub p l = true.
Proof. intros H. destruct l; simpl in *; by rewrite H. Qed.

Lemma find_sub_later p c l : PyStr.find_sub p l = true → PyStr.find_sub p (c :: l) = true.
Proof. intros H. simpl. rewrite H. apply orb_true_r. Qed.

Lemma status_search_cons c l :
  Regex.status_search (c :: l)
  = match (if PyStr.is_prefix Regex.status_marker (c :: l)
           then match PyStr.take_while PyStr.is_digit
                        (drop (length Regex.status_marker) (c :: l)) with
                | [] => None
                | ds => Some ds
                end
           else None) with
    | Some ds => Some ds
    | None => Regex.status_search l
    end.
Proof. reflexivity. Qed.

(** What [re.search(r'/status/(\d+)', url)] captures is a run of digits,
    not empty, that follows [/status/] in the text. *)
Lemma status_search_sound l : ∀ ds,
  Regex.status_search l = Some ds →
  ds ≠ [] ∧ forallb PyStr.is_digit ds = true
  ∧ PyStr.find_sub (Regex.status_marker ++ ds) l = true.
Proof.
  induction l as [|c l IH]; intros ds.
  - intros H. vm_compute in H. done.
  - rewrite status_search_cons.
    destruct (PyStr.is_prefix Regex.status_marker (c :: l)) eqn:Hpre.
    + destruct (PyStr.take_while PyStr.is_digit
                  (drop (length Regex.status_marker) (c :: l))) as [|d ds'] eqn:Htake.
      * intros H. destruct (IH ds H) as (? & ? & ?). auto using find_sub_later.
      * intros [= <-]. split; [done |]. split.
        -- rewrite <- Htake. apply take_while_all.
        -- apply find_sub_here.
           pose proof (is_prefix_split _ _ Hpre) as Hl.
           pose proof (take_drop_while PyStr.is_digit
                         (drop (length Regex.status_marker) (c :: l))) as Hrest.
           rewrite Htake in Hrest. rewrite <- Hrest in Hl. rewrite Hl.
           apply is_prefix_longer.
    + intros H. destruct (IH ds H) as (? & ? & ?). auto using find_sub_later.
Qed.

Lemma isdigit_of_chars ds :
  ds ≠ [] → forallb PyStr.is_digit ds = true → PyStr.isdigit (PyStr.of_chars ds) = true.
Proof. intros Hne Hall. unfold PyStr.isdigit. rewrite chars_of_chars. by destruct ds. Qed.

Lemma no_slash_rev l :
  forallb (λ c, negb (Ascii.eqb c "/")) l = true →
  existsb (Ascii.eqb "/") (rev l) = false.
Proof.
  induction l as [|c l IH]; cbn [forallb rev]; [done |].
  intros H. apply andb_prop in H as [Hc Hl].
  rewrite existsb_app, (IH Hl). cbn [existsb orb].
  rewrite Ascii.eqb_sym, orb_false_r. by apply negb_true_iff in Hc.
Qed.

(** [PyStr.last_segment]: what [split('/')[-1]] returns has no slash. *)
Lemma last_segment_no_slash s : PyStr.has_char "/" (PyStr.last_segment s) = false.
Proof.
  unfold PyStr.has_char, PyStr.last_segment. rewrite chars_of_chars.
  apply no_slash_rev, take_while_all.
Qed.

Lemma resolve_username_no_slash a : PyStr.has_char "/" (resolve_username a) = false.
Proof.
  unfold resolve_username.
  destruct (a_user_a a); [apply last_segment_no_slash |].
  destruct (a_user_b a); [apply last_segment_no_slash | done].
Qed.

(** ** A property of every record of the output *)

Section Every.

Variable P : tweet_data → Prop.
Variable env : oracle.

Hypothesis reply_body_P : ∀ parent_id parent_username english_only a w,
  post (reply_body env parent_id parent_username english_only a) w
    (λ r _, ∀ x, r = Some x → P x) (λ _, True).

Hypothesis tweet_body_P : ∀ english_only processed_tweets a w,
  post (tweet_body env english_only processed_tweets a) w
    (λ r _, ∀ url x, r = Some (url, x) → P x) (λ _, True).

Lemma every_reply_for parent_id parent_username replies_limit english_only els :
  ∀ i replies w, Forall P replies →
  post (reply_for env parent_id parent_username replies_limit english_only els i replies) w
    (λ out _, Forall P out) (λ _, False).
Proof.
  induction els as [|a rest IH]; intros i replies w Hall; simpl.
  - by apply post_ret.
  - destruct (Nat.eqb i 0); [by apply IH |].
    destruct (_ <=? _); [by apply post_ret |].
    apply post_bind, post_attempt.
    eapply post_mono; [apply reply_body_P | | ].
    + intros [r|] w' Hr; simpl; apply IH; [| done].
      apply Forall_app. split; [done |]. constructor; [by apply Hr | constructor].
    + intros w' _. by apply IH.
Qed.

Lemma every_reply_while parent_id parent_username replies_limit english_only fuel :
  ∀ replies scroll_attempts w, Forall P replies →
  post (reply_while env parent_id parent_username replies_limit english_only
          fuel replies scroll_attempts) w
    (λ out _, Forall P out.1) (λ _, False).
Proof.
  induction fuel as [|fuel IH]; intros replies n w Hall; simpl; [done |].
  destruct (_ && _); [| by apply post_ret].
  apply post_bind, post_attempt, post_any; [| intros; by apply post_ret].
  intros els w1. apply post_bind.
  eapply post_mono; [by apply every_reply_for | | done].
  intros replies1 w2 Hall1. simpl.
  apply post_bind, post_attempt, post_any; [| intros; by apply post_ret].
  intros same w3. by apply IH.
Qed.

Lemma every_get_twitter_replies parent_id parent_username replies_limit english_only
    fuel tweet_url w :
  post (get_twitter_replies env parent_id parent_username replies_limit english_only
          fuel tweet_url) w
    (λ out _, Forall P out) (λ _, True).
Proof.
  unfold get_twitter_replies.
  apply post_bind, post_attempt, post_any.
  - intros _ w1. apply post_bind.
    eapply post_mono; [apply every_reply_while; constructor | | done].
    intros [replies escaped] w2 Hall. simpl in *.
    destruct escaped.
    + apply post_bind_any; [intros; by apply post_ret | done].
    + apply post_bind, post_attempt, post_any.
      * intros; by apply post_ret.
      * intros. apply post_bind_any; [intros; by apply post_ret | done].
  - intros w1. apply post_bind_any; [| done].
    intros; apply post_ret. constructor.
Qed.

Lemma every_tweet_for limit replies_limit english_only thread_fuel els :
  ∀ tweets_list processed_tweets w, Forall P tweets_list →
  post (tweet_for env limit replies_limit english_only thread_fuel
          els tweets_list processed_tweets) w
    (λ out _, Forall P out.1) (λ _, False).
Proof.
  induction els as [|a rest IH]; intros tweets_list processed_tweets w Hall; simpl.
  - by apply post_ret.
  - destruct (_ <=? _); [by apply post_ret |].
    apply post_bind, post_attempt.
    eapply post_mono; [apply tweet_body_P | | ].
    + intros [[url d]|] w1 Hr; simpl; [| by apply IH].
      assert (Forall P (tweets_list ++ [d])) as Hall1.
      { apply Forall_app. split; [done |].
        constructor; [by apply (Hr url d) | constructor]. }
      destruct (0 <? num_comments d); [| by apply IH].
      apply post_bind, post_attempt.
      eapply post_mono; [apply every_get_twitter_replies | | ].
      * intros replies w2 Hreplies. simpl. apply IH. by apply Forall_app.
      * intros w2 _. simpl. by apply IH.
    + intros w1 _. by apply IH.
Qed.

Lemma every_tweet_while limit replies_limit english_only thread_fuel fuel :
  ∀ tweets_list processed_tweets scroll_attempts previous_height w,
  Forall P tweets_list →
  post (tweet_while env limit replies_limit english_only thread_fuel fuel
          tweets_list processed_tweets scroll_attempts previous_height) w
    (λ out _, Forall P out) (λ _, False).
Proof.
  induction fuel as [|fuel IH]; intros tweets_list processed_tweets n h w Hall; simpl;
    [done |].
  destruct (_ && _); [| by apply post_ret].
  apply post_bind, post_attempt, post_any; [| intros; by apply IH].
  intros els w1. apply post_bind.
  eapply post_mono; [by apply every_tweet_for | | done].
  intros [tweets1 processed1] w2 Hall1. simpl in *.
  apply post_bind, post_attempt, post_any; intros; by apply IH.
Qed.

Lemma every_scrape_twitter fuel topic start_date end_date limit replies_limit
    headless english_only w :
  post (scrape_twitter env fuel topic start_date end_date limit replies_limit
          headless english_only) w
    (λ out _, Forall P out) (λ _, True).
Proof.
  unfold scrape_twitter.
  apply post_bind_any; [intros fs w1 | done].
  apply post_bind_any; [intros fe w2 | done].
  apply post_bind_any; [intros _ w3 | done].
  apply post_bind_any; [intros reached w4 | done].
  destruct reached.
  - apply post_bind_any; [intros h w5 | done].
    apply post_bind.
    eapply post_mono; [apply every_tweet_while; constructor | | done].
    intros out w6 Hout. simpl.
    apply post_bind_any; [intros; by apply post_ret | done].
  - apply post_bind_any; [| done].
    intros. apply post_ret. constructor.
Qed.

End Every.

(** ** Ids and author names *)

(** The id is a run of digits, not empty; the author name has no slash. *)
Definition record_wf (r : tweet_data) : Prop :=
  PyStr.isdigit (id r) = true ∧ PyStr.has_char "/" (speaker_nm r) = false.

Lemma status_id_numeric url s :
  Regex.status_id url = Some s → PyStr.isdigit s = true.
Proof.
  unfold Regex.status_id. intros H.
  destruct (Regex.status_search (PyStr.chars url)) as [ds|] eqn:Hsearch; [| done].
  injection H as <-.
  destruct (status_search_sound _ _ Hsearch) as (Hne & Hall & _).
  by apply isdigit_of_chars.
Qed.

Lemma reply_body_wf env parent_id parent_username english_only a w :
  post (reply_body env parent_id parent_username english_only a) w
    (λ r _, ∀ x, r = Some x → record_wf x) (λ _, True).
Proof.
  unfold reply_body.
  apply post_bind_any; [intros links w1 | done].
  destruct links as [|link ?]; [by apply post_ret |].
  apply post_bind_any; [intros reply_url w2 | done].
  destruct (Regex.status_id reply_url) as [reply_id|] eqn:Hid; [| done].
  simpl. apply post_bind, post_ret.
  apply post_bind_any; [intros skip w4 | done].
  destruct skip; [by apply post_ret |].
  apply post_bind_any; [intros ts w5 | done].
  apply post_bind_any; [intros m w6 | done].
  apply post_ret. intros x [= <-]. split; simpl.
  - by eapply status_id_numeric.
  - apply resolve_username_no_slash.
Qed.

Lemma tweet_body_wf env english_only processed_tweets a w :
  post (tweet_body env english_only processed_tweets a) w
    (λ r _, ∀ url x, r = Some (url, x) → record_wf x) (λ _, True).
Proof.
  unfold tweet_body.
  apply post_bind_any; [intros links w1 | done].
  destruct links as [|link ?]; [by apply post_ret |].
  apply post_bind_any; [intros tweet_url w2 | done].
  destruct (Regex.status_id tweet_url) as [tweet_id|] eqn:Hid; [| by apply post_ret].
  case_bool_decide; [by apply post_ret |].
  destruct (is_reply a); [by apply post_ret |].
  apply post_bind_any; [intros skip w3 | done].
  destruct skip; [by apply post_ret |].
  apply post_bind_any; [intros ts w4 | done].
  apply post_bind_any; [intros m w5 | done].
  apply post_ret. intros url x [= <- <-]. split; simpl.
  - by eapply status_id_numeric.
  - apply resolve_username_no_slash.
Qed.

(** ** How many records *)


(** What holds of [tweets_list] and [processed_tweets] all along
    [scrape_twitter], now with the size of the set. *)
Definition feed_sized (limit replies_limit : Z)
    (tweets_list : list tweet_data) (processed_tweets : gset string) : Prop :=
  feed_ok replies_limit tweets_list processed_tweets
  ∧ Z.of_nat (size processed_tweets) ≤ Z.max 0 limit.

Section FeedSize.

Variable env : oracle.
Variables (limit replies_limit : Z) (english_only : bool).
Variable thread_fuel : nat.

Lemma feed_sized_add tweets_list processed_tweets d replies :
  feed_sized limit replies_limit tweets_list processed_tweets →
  ¬ limit ≤ Z.of_nat (size processed_tweets) →
  root_shape d →
  id d ∉ processed_tweets →
  thread_ok (id d) (speaker_nm d) replies_limit replies →
  feed_sized limit replies_limit ((tweets_list ++ [d]) ++ replies)
    ({[id d]} ∪ processed_tweets).
Proof.
  intros [Hok Hsize] Hroom Hroot Hnew Hreplies. split.
  - by apply feed_ok_add.
  - rewrite size_union by set_solver. rewrite size_singleton. lia.
Qed.

Lemma tweet_for_sized els : ∀ tweets_list processed_tweets w,
  feed_sized limit replies_limit tweets_list processed_tweets →
  post (tweet_for env limit replies_limit english_only thread_fuel
          els tweets_list processed_tweets) w
    (λ out _, feed_sized limit replies_limit out.1 out.2) (λ _, False).
Proof.
  induction els as [|a rest IH]; intros tweets_list processed_tweets w Hok; simpl.
  - by apply post_ret.
  - destruct (Z.leb_spec limit (Z.of_nat (size processed_tweets))) as [Hfull|Hroom];
      [by apply post_ret |].
    apply post_bind, post_attempt.
    eapply post_mono; [apply tweet_body_new | | ].
    + intros [[url d]|] w1 Hr; simpl; [| by apply IH].
      destruct (Hr url d eq_refl) as [Hroot Hnew].
      destruct (0 <? num_comments d).
      * apply post_bind, post_attempt.
        eapply post_mono; [apply get_twitter_replies_ok | | ].
        -- intros replies w2 Hreplies. simpl. apply IH.
           apply feed_sized_add; [done | lia | done | done | done].
        -- intros w2 _. simpl. apply IH.
           rewrite <- (app_nil_r (tweets_list ++ [d])).
           apply feed_sized_add; [done | lia | done | done | apply thread_ok_nil].
      * apply IH. rewrite <- (app_nil_r (tweets_list ++ [d])).
        apply feed_sized_add; [done | lia | done | done | apply thread_ok_nil].
    + intros w1 _. by apply IH.
Qed.

Lemma tweet_while_sized fuel : ∀ tweets_list processed_tweets scroll_attempts previous_height w,
  feed_sized limit replies_limit tweets_list processed_tweets →
  post (tweet_while env limit replies_limit english_only thread_fuel fuel
          tweets_list processed_tweets scroll_attempts previous_height) w
    (λ out _, ∃ processed, feed_sized limit replies_limit out processed) (λ _, False).
Proof.
  induction fuel as [|fuel IH]; intros tweets_list processed_tweets n h w Hok; simpl;
    [done |].
  destruct (_ && _); [| apply post_ret; eauto].
  apply post_bind, post_attempt, post_any; [| intros; by apply IH].
  intros els w1. apply post_bind.
  eapply post_mono; [by apply tweet_for_sized | | done].
  intros [tweets1 processed1] w2 Hok1. simpl in *.
  apply post_bind, post_attempt, post_any; intros; by apply IH.
Qed.

End FeedSize.

Lemma scrape_twitter_sized env fuel topic start_date end_date limit replies_limit
    headless english_only w :
  post (scrape_twitter env fuel topic start_date end_date limit replies_limit
          headless english_only) w
    (λ out _, ∃ processed, feed_sized limit replies_limit out processed) (λ _, True).
Proof.
  assert (feed_sized limit replies_limit [] ∅) as Hempty.
  { split; [apply feed_ok_empty |]. rewrite size_empty. lia. }
  unfold scrape_twitter.
  apply post_bind_any; [intros fs w1 | done].
  apply post_bind_any; [intros fe w2 | done].
  apply post_bind_any; [intros _ w3 | done].
  apply post_bind_any; [intros reached w4 | done].
  destruct reached.
  - apply post_bind_any; [intros h w5 | done].
    apply post_bind.
    eapply post_mono; [by apply tweet_while_sized | | done].
    intros out w6 Hout. simpl.
    apply post_bind_any; [intros; by apply post_ret | done].
  - apply post_bind_any; [| done].
    intros. apply post_ret. eauto.
Qed.

(** * Exceptions that stay inside *)


Lemma page_call_logged env ev w :
  post (page_call env ev) w (λ _ _, True) (λ w', history w' = ev :: history w).
Proof. unfold post, page_call. by destruct (_ || _). Qed.





(** * Fixtures: small pages and worlds to run the scraper on *)

Module Fixture.

Definition no_spans : string → lookup (list (lookup string)) := λ _, Found [].

(** A tweet as the feed renders it: one status link, the author link, a
    text, a time, and the reply button with its count. *)
Definition tweet (url user txt comments : string) : article :=
  {| a_links := Found [Found url];
     a_social := Raises;
     a_user_a := Found ("https://twitter.com/" +:+ user);
     a_user_b := Raises;
     a_text := Found txt;
     a_time := Found (Some "2024-01-01T00:00:00.000Z");
     a_group := Found [ {| el_testid := Found (Some "reply"); el_text := Found comments |} ];
     a_spans := no_spans |}.

(** An element with nothing but one grouped element for one metric. *)
Definition grouped (metric count : string) : article :=
  {| a_links := Raises; a_social := Raises; a_user_a := Raises; a_user_b := Raises;
     a_text := Raises; a_time := Raises;
     a_group := Found [ {| el_testid := Found (Some metric); el_text := Found count |} ];
     a_spans := no_spans |}.

(** An element with nothing but one span for one metric. *)
Definition spanned (metric count : string) : article :=
  {| a_links := Raises; a_social := Raises; a_user_a := Raises; a_user_b := Raises;
     a_text := Raises; a_time := Raises;
     a_group := Found [];
     a_spans := λ key, if String.eqb key metric then Found [Found count] else Found [] |}.

(** An element that has gone stale: every query raises. *)
Definition stale : article :=
  {| a_links := Raises; a_social := Raises; a_user_a := Raises; a_user_b := Raises;
     a_text := Raises; a_time := Raises; a_group := Raises;
     a_spans := λ _, Raises |}.

(** Is the thread tab the one that was opened last and not closed since? *)
Fixpoint in_thread (h : list event) : bool :=
  match h with
  | EOpen _ :: _ => true
  | EClose :: _ => false
  | _ :: h' => in_thread h'
  | [] => false
  end.

Fixpoint scrolls (h : list event) : nat :=
  match h with
  | EScroll :: h' => S (scrolls h')
  | _ :: h' => scrolls h'
  | [] => O
  end.

Definition root100 : article :=
  tweet "https://twitter.com/alice/status/100" "alice" "hello" "1".

Definition reply200 : article :=
  tweet "https://twitter.com/bob/status/200" "bob" "hi" "".

(** A feed with one tweet that has one reply; nothing ever changes and no
    call raises. *)
Definition static_env : oracle :=
  {| raises := λ _, false;
     rendered := λ h, if in_thread h then [root100; reply200] else [root100];
     scroll_height := λ _, 1000;
     detect := λ _ _, Found "en";
     clock := λ _, "2024-03-01T12:00:00";
     strptime := Found |}.

(** A page that shows one tweet and grows by 1000 pixels with every
    scroll; between two scrolls its height stays what it is. *)
Definition growing_env : oracle :=
  {| raises := λ _, false;
     rendered := λ _, [root100];
     scroll_height := λ h, 1000 * Z.of_nat (S (scrolls h));
     detect := λ _ _, Found "en";
     clock := λ _, "2024-03-01T12:00:00";
     strptime := Found |}.

(** The same pages; the first [switch_to.window] of the run raises. *)
Definition switch_fault_env : oracle :=
  {| raises := λ h, match h with
                    | ESwitch _ :: earlier =>
                        forallb (λ ev, match ev with ESwitch _ => false | _ => true end) earlier
                    | _ => false
                    end;
     rendered := λ h, if in_thread h then [root100; reply200] else [root100];
     scroll_height := λ _, 1000;
     detect := λ _ _, Found "en";
     clock := λ _, "2024-03-01T12:00:00";
     strptime := Found |}.

(** A feed of three tweets: a French one, one without text, an English
    one.  langdetect would call the empty text French too. *)
Definition mixed_env : oracle :=
  {| raises := λ _, false;
     rendered := λ _, [ tweet "https://twitter.com/a/status/1" "a" "bonjour tout le monde" "";
                        tweet "https://twitter.com/b/status/2" "b" "" "";
                        tweet "https://twitter.com/c/status/3" "c" "hello world" "" ];
     scroll_height := λ _, 1000;
     detect := λ _ t, if String.eqb t "hello world" then Found "en" else Found "fr";
     clock := λ _, "2024-03-01T12:00:00";
     strptime := Found |}.

(** A feed that shows nothing and never changes. *)
Definition empty_env : oracle :=
  {| raises := λ _, false;
     rendered := λ _, [];
     scroll_height := λ _, 1000;
     detect := λ _ _, Found "en";
     clock := λ _, "2024-03-01T12:00:00";
     strptime := Found |}.

(** A browser with its first window open. *)
Definition one_window : world :=
  {| history := []; handles := [0%nat]; focus := 0%nat; fresh := 1%nat |}.

Definition root100_data : tweet_data :=
  {| id := "100"; speaker_nm := "alice"; conversation_id := "100";
     reply_to_id := None; reply_to_nm := None;
     timestamp := Some "2024-01-01T00:00:00.000Z"; text := "hello";
     likes := 0; shares := 0; num_comments := 1 |}.

Definition reply200_data : tweet_data :=
  {| id := "200"; speaker_nm := "bob"; conversation_id := "100";
     reply_to_id := Some "100"; reply_to_nm := Some "alice";
     timestamp := Some "2024-01-01T00:00:00.000Z"; text := "hi";
     likes := 0; shares := 0; num_comments := 0 |}.

End Fixture.

(** * The claims *)

(** ** Records and their ids *)

(** Claim C1, on a feed with one tweet that has one reply, nothing ever
    changing: with [limit = 1] and [replies_limit = 3] the search crawler
    returns the root and three times the same reply, so the ids of the
    output are not unique.  The thread crawler keeps no set of ids and
    reads the rendered elements again in every pass of its loop. *)
Theorem reply_ids_repeat :
  ∃ w', scrape_twitter Fixture.static_env 60 "rocq" "2024-01-01" "2024-02-01"
          1 3 true true init_world
        = Ok [Fixture.root100_data; Fixture.reply200_data;
              Fixture.reply200_data; Fixture.reply200_data] w'
        ∧ ¬ NoDup (map id [Fixture.root100_data; Fixture.reply200_data;
                           Fixture.reply200_data; Fixture.reply200_data]).
Proof.
  eexists. split; [vm_compute; reflexivity |].
  simpl. intros Hnd. apply NoDup_cons in Hnd as [_ Hnd].
  apply NoDup_cons in Hnd as [Hnotin _]. apply Hnotin. left.
Qed.

(** The part of claim C1 that the code keeps: the top-level tweets of the
    output have ids that differ from each other. *)
Lemma root_ids_unique env fuel topic start_date end_date limit replies_limit
    headless english_only w out w' :
  scrape_twitter env fuel topic start_date end_date limit replies_limit
    headless english_only w = Ok out w' →
  ∃ bs, out = flatten bs ∧ NoDup (roots bs).
Proof.
  intros Hrun.
  destruct (post_ok _ _ _ _ _ _ (scrape_twitter_ok _ _ _ _ _ _ _ _ _ _) Hrun)
    as (processed & bs & -> & _ & Hnd & _).
  by exists bs.
Qed.

(** ** The stall counters *)

(** Claim C2, on a thread page that grows with every scroll: the height
    after a scroll never equals the height before it, and still the loop
    of the thread crawler counts a stall in every pass and ends after ten
    scrolls with no reply.  Line 399 compares the height read after the
    scroll with a second reading of it, not with a height read before. *)
Theorem thread_stall_counter_ignores_growth :
  (∀ h, scroll_height Fixture.growing_env (EScroll :: h)
        ≠ scroll_height Fixture.growing_env h)
  ∧ ∃ w', get_twitter_replies Fixture.growing_env "100" "alice" 20 true 60
            "https://twitter.com/alice/status/100" Fixture.one_window
          = Ok [] w'
          ∧ Fixture.scrolls (history w') = 10%nat.
Proof.
  split.
  - intros h. simpl. lia.
  - eexists. split; vm_compute; reflexivity.
Qed.

(** A feed that never changes and never fills the quota: the search
    crawler ends after exactly fifty scrolls. *)
Example static_feed_fifty_scrolls :
  ∃ w', scrape_twitter Fixture.empty_env 60 "rocq" "2024-01-01" "2024-02-01"
          5 3 true true init_world = Ok [] w'
        ∧ Fixture.scrolls (history w') = 50%nat.
Proof. eexists. split; vm_compute; reflexivity. Qed.

(** A thread that never changes and never fills the quota: the thread
    crawler ends after exactly ten scrolls. *)
Example static_thread_ten_scrolls :
  ∃ replies w', get_twitter_replies Fixture.static_env "100" "alice" 20 true 60
                  "https://twitter.com/alice/status/100" Fixture.one_window
                = Ok replies w'
                ∧ Fixture.scrolls (history w') = 10%nat.
Proof. eexists _, _. split; vm_compute; reflexivity. Qed.

(** ** Engagement counts *)

(** The like count that [get_metrics] reads off an element. *)
Definition like_count (a : article) : option Z :=
  match get_metrics a init_world with
  | Ok m _ => Some (like m)
  | Exn _ | Fuel => None
  end.

(** The examples of the specification, on the grouped path and on the
    per-metric path. *)
Lemma count_examples :
  map (λ t, like_count (Fixture.grouped "like" t)) ["1.2K"; "3M"; "47"; ""; "garbage"]
  = [Some 1200; Some 3000000; Some 47; Some 0; Some 0]
  ∧ map (λ t, like_count (Fixture.spanned "like" t)) ["1.2K"; "3M"; "47"; ""; "garbage"]
    = [Some 1200; Some 3000000; Some 47; Some 0; Some 0].
Proof. split; vm_compute; reflexivity. Qed.

(** Claim C3, on the count text "1.2k": the grouped path reads 1200, the
    per-metric path reads 0, and so it does for "5m".  The guard of line
    101 asks for a capital K or M before the conversion of lines 102-105,
    which would take the small letters, is reached. *)
Theorem lowercase_suffix_lost_on_secondary_path :
  like_count (Fixture.grouped "like" "1.2k") = Some 1200
  ∧ like_count (Fixture.spanned "like" "1.2k") = Some 0
  ∧ like_count (Fixture.grouped "like" "5m") = Some 5000000
  ∧ like_count (Fixture.spanned "like" "5m") = Some 0
  ∧ parse_primary "1.2k" = Found (Some 1200)
  ∧ parse_secondary "1.2k" = Found None.
Proof. repeat split; vm_compute; reflexivity. Qed.

(** ** The windows of the browser *)

(** Claim C4, on a browser whose first [switch_to.window] raises after
    the tab has been opened: the handler of lines 410-415 finds two
    windows, closes the one that has the focus, which is still the
    window of the caller, and moves to the one that is left, the thread
    tab.  The thread crawler returns the empty list with the window of
    the caller (0) closed and the thread tab (1) open and focused. *)
Theorem cleanup_closes_callers_window :
  ∃ w', get_twitter_replies Fixture.switch_fault_env "100" "alice" 3 true 60
          "https://twitter.com/alice/status/100" Fixture.one_window
        = Ok [] w'
        ∧ focus Fixture.one_window = 0%nat
        ∧ handles w' = [1%nat]
        ∧ focus w' = 1%nat.
Proof. eexists. repeat split; vm_compute; reflexivity. Qed.

(** ** The two strategies *)

(** The literal reading of claim C7 fails on an element whose grouped
    query raises: all three metrics are zero, and the per-metric strategy
    has not been tried; the history holds the grouped query alone. *)
Lemma stale_group_skips_secondary :
  ∃ m w', get_metrics Fixture.stale init_world = Ok m w'
          ∧ all_zero m = true
          ∧ history w' = [EGroupQuery].
Proof. eexists _, _. repeat split; vm_compute; reflexivity. Qed.

(** Can the [data-testid] of the first element of the grouped selector be
    read?  (When that read raises, the handler of line 92 prints a
    [test_id] that has no value yet and raises in its turn.) *)
Definition first_test_id_readable (a : article) : bool :=
  match a_group a with
  | Found (el :: _) =>
      match el_testid el with
      | Found _ => true
      | Raises => false
      end
  | Found [] | Raises => true
  end.

Lemma primary_loop_completes a els :
  first_test_id_readable a = true → a_group a = Found els →
  (primary_loop els false zero_metrics).2 = false.
Proof.
  unfold first_test_id_readable. intros Hread Heq. rewrite Heq in Hread.
  destruct els as [|el rest]; simpl; [done |].
  destruct (el_testid el); [apply primary_loop_bound | done].
Qed.

(** Claim C7, amended.  On an element whose first grouped element lets
    its [data-testid] be read, [get_metrics] always returns.  It asks the
    grouped query first.  It asks the per-metric queries, all three of
    them, exactly when the grouped query answered and the grouped
    strategy resolved every metric to zero.  When the grouped query
    raises, the result is all zeros; when the grouped strategy resolved a
    metric to a non-zero value, the result is what it resolved; and when
    neither strategy finds a value, the result is all zeros. *)
Theorem get_metrics_two_tier (a : article) (w : world) :
  first_test_id_readable a = true →
  ∃ m w' queries,
    get_metrics a w = Ok m w'
    ∧ history w' = queries ++ EGroupQuery :: history w
    ∧ (queries = [] ∨ queries = span_queries)
    ∧ (queries = span_queries
       ↔ ∃ m1, primary_resolved a = Some m1 ∧ all_zero m1 = true)
    ∧ (primary_resolved a = None ↔ a_group a = Raises)
    ∧ (a_group a = Raises → m = zero_metrics)
    ∧ (∀ m1, primary_resolved a = Some m1 → all_zero m1 = false → m = m1)
    ∧ ((∀ m1, primary_resolved a = Some m1 → all_zero m1 = true) →
       (∀ key, secondary_value a key = None) → m = zero_metrics).
Proof.
  intros Hread. pose proof (primary_loop_completes a) as Hcompletes.
  unfold get_metrics, primary_resolved, bind, log.
  destruct (a_group a) as [els|].
  - specialize (Hcompletes els Hread eq_refl).
    destruct (primary_loop els false zero_metrics) as [m1 escaped].
    simpl in Hcompletes. subst escaped.
    destruct (all_zero m1) eqn:Hzero.
    + destruct (secondary_loop_run metric_keys a m1 (record_event EGroupQuery w))
        as (m & -> & Hnone).
      exists m, (add_events (rev (map ESpanQuery metric_keys))
                   (record_event EGroupQuery w)), span_queries. simpl.
      split; [done | split; [done | split; [by right |]]].
      split; [split; [by exists m1 | done] |].
      split; [done |].
      split; [done |].
      split; [intros ? [= <-]; congruence |].
      intros _ Hall. rewrite Hnone; [| by intros].
      destruct m1 as [r t l]. unfold all_zero in Hzero. simpl in Hzero.
      apply andb_prop in Hzero as [Hzero Hl]. apply andb_prop in Hzero as [Hr Ht].
      apply Z.eqb_eq in Hr, Ht, Hl. by subst.
    + exists m1, (record_event EGroupQuery w), []. simpl.
      split; [done | split; [done | split; [by left |]]].
      split; [split; [done | intros (? & [= <-] & ?); congruence] |].
      split; [done |].
      split; [done |].
      split; [by intros ? [= <-] |].
      intros Hall. specialize (Hall m1 eq_refl). congruence.
  - exists zero_metrics, (record_event EGroupQuery w), []. simpl.
    split; [done | split; [done | split; [by left |]]].
    split; [split; [done | by intros (? & ? & _)] |].
    split; [done | split; [done | split; [done | done]]].
Qed.

Lemma get_metrics_two_tier_witness :
  ∃ m w' queries,
    get_metrics (Fixture.spanned "like" "47") init_world = Ok m w'
    ∧ history w' = queries ++ EGroupQuery :: history init_world
    ∧ (queries = [] ∨ queries = span_queries)
    ∧ (queries = span_queries
       ↔ ∃ m1, primary_resolved (Fixture.spanned "like" "47") = Some m1
               ∧ all_zero m1 = true)
    ∧ (primary_resolved (Fixture.spanned "like" "47") = None
       ↔ a_group (Fixture.spanned "like" "47") = Raises)
    ∧ (a_group (Fixture.spanned "like" "47") = Raises → m = zero_metrics)
    ∧ (∀ m1, primary_resolved (Fixture.spanned "like" "47") = Some m1 →
             all_zero m1 = false → m = m1)
    ∧ ((∀ m1, primary_resolved (Fixture.spanned "like" "47") = Some m1 →
              all_zero m1 = true) →
       (∀ key, secondary_value (Fixture.spanned "like" "47") key = None) →
       m = zero_metrics).
Proof.
  apply (get_metrics_two_tier (Fixture.spanned "like" "47") init_world).
  reflexivity.
Defined.

(** On that element the per-metric strategy is tried and finds 47 likes. *)
Example spanned_likes_found :
  ∃ w', get_metrics (Fixture.spanned "like" "47") init_world
        = Ok {| reply := 0; retweet := 0; like := 47 |} w'
        ∧ history w' = span_queries ++ [EGroupQuery].
Proof. eexists. split; vm_compute; reflexivity. Qed.

(** ** Parents and children *)

(** A root with its replies, as the claim wants them linked. *)
Definition block_linked (b : block) : Prop :=
  root_shape b.1 ∧ Forall (reply_shape (id b.1) (speaker_nm b.1)) b.2.

(** Claim C5.  Every record that the thread crawler returns for the root
    [(parent_id, parent_username)] has that id as its conversation id and
    as its reply-to id, and that author as its reply-to author.  The
    output of the search crawler is a sequence of threads: a root record,
    whose conversation id is its own id and whose reply-to fields are
    null, followed by the records that the thread crawler returned for
    this root. *)
Theorem thread_linkage (env : oracle) (fuel : nat) (english_only : bool)
    (replies_limit : Z) :
  (∀ parent_id parent_username tweet_url w replies w',
     get_twitter_replies env parent_id parent_username replies_limit english_only
       fuel tweet_url w = Ok replies w' →
     Forall (reply_shape parent_id parent_username) replies)
  ∧ (∀ topic start_date end_date limit headless w out w',
       scrape_twitter env fuel topic start_date end_date limit replies_limit
         headless english_only w = Ok out w' →
       ∃ bs, out = flatten bs ∧ Forall block_linked bs).
Proof.
  split.
  - intros pid pu url w replies w' Hrun.
    by destruct (post_ok _ _ _ _ _ _ (get_twitter_replies_ok _ _ _ _ _ _ _ _) Hrun).
  - intros topic sd ed limit headless w out w' Hrun.
    destruct (post_ok _ _ _ _ _ _ (scrape_twitter_ok _ _ _ _ _ _ _ _ _ _) Hrun)
      as (processed & bs & -> & Hbs & _).
    exists bs. split; [done |].
    eapply Forall_impl; [exact Hbs |].
    intros b [Hroot [_ Hreplies]]. by split.
Qed.

Lemma thread_linkage_witness :
  Forall (reply_shape "100" "alice")
    [Fixture.reply200_data; Fixture.reply200_data; Fixture.reply200_data]
  ∧ ∃ bs, [Fixture.root100_data; Fixture.reply200_data;
           Fixture.reply200_data; Fixture.reply200_data] = flatten bs
          ∧ Forall block_linked bs.
Proof.
  destruct (thread_linkage Fixture.static_env 60 true 3) as [Hthread Hfeed].
  split.
  - eapply (Hthread "100" "alice" "https://twitter.com/alice/status/100"
              Fixture.one_window).
    vm_compute. reflexivity.
  - eapply (Hfeed "rocq" "2024-01-01" "2024-02-01" 1 true init_world).
    vm_compute. reflexivity.
Defined.

(** ** The quota of replies *)

(** Claim C6.  Whatever the pages show and whichever calls raise, a list
    that the thread crawler returns has at most [replies_limit] records. *)
Theorem replies_bounded (env : oracle) (parent_id parent_username : string)
    (replies_limit : Z) (english_only : bool) (fuel : nat) (tweet_url : string)
    (w : world) (replies : list tweet_data) (w' : world) :
  0 ≤ replies_limit →
  get_twitter_replies env parent_id parent_username replies_limit english_only
    fuel tweet_url w = Ok replies w' →
  Z.of_nat (length replies) ≤ replies_limit.
Proof.
  intros Hlimit Hrun.
  destruct (post_ok _ _ _ _ _ _ (get_twitter_replies_ok _ _ _ _ _ _ _ _) Hrun)
    as [Hlen _].
  lia.
Qed.

Lemma replies_bounded_witness :
  Z.of_nat (length [Fixture.reply200_data; Fixture.reply200_data;
                    Fixture.reply200_data]) ≤ 3.
Proof.
  eapply (replies_bounded Fixture.static_env "100" "alice" 3 true 60
            "https://twitter.com/alice/status/100" Fixture.one_window).
  - lia.
  - vm_compute. reflexivity.
Defined.

(** ** The language filter *)

(** Claim C8.  [is_english_text] answers [True] whenever langdetect
    raises, whatever the text, the empty one included.  In every run of
    the thread crawler and of the search crawler, langdetect is asked, and
    a tweet or reply is skipped for its language, only when the filter is
    on and the text at hand is not empty: if the events of the history
    were fine before the run, they are fine after it, whether the run
    returns or raises. *)
Theorem language_filter_fail_open (env : oracle) (english_only : bool) :
  (∀ t w, detect env (EDetect t :: history w) t = Raises →
          is_english_text env t w = Ok true (record_event (EDetect t) w))
  ∧ (∀ parent_id parent_username replies_limit fuel tweet_url w w',
       hist_ok english_only w →
       final_world (get_twitter_replies env parent_id parent_username replies_limit
                      english_only fuel tweet_url w) = Some w' →
       hist_ok english_only w')
  ∧ (∀ fuel topic start_date end_date limit replies_limit headless w w',
       hist_ok english_only w →
       final_world (scrape_twitter env fuel topic start_date end_date limit
                      replies_limit headless english_only w) = Some w' →
       hist_ok english_only w').
Proof.
  split; [| split].
  - intros t w Hraises. unfold is_english_text, bind, log, get_world, ret. simpl.
    by rewrite Hraises.
  - intros pid pu rl fuel url w w' Hw Hfinal.
    pose proof (keeps_get_twitter_replies env english_only pid pu rl fuel url w Hw) as H.
    unfold post in H. destruct (get_twitter_replies _ _ _ _ _ _ _ _); simpl in Hfinal;
      by simplify_eq.
  - intros fuel topic sd ed limit rl headless w w' Hw Hfinal.
    pose proof (keeps_scrape_twitter env english_only fuel topic sd ed limit rl
                  headless w Hw) as H.
    unfold post in H. destruct (scrape_twitter _ _ _ _ _ _ _ _ _ _); simpl in Hfinal;
      by simplify_eq.
Qed.

(** The run of the witness: of a French tweet, a tweet without text and an
    English tweet, the first is skipped and the other two are kept, though
    langdetect would have called the empty text French. *)
Definition mixed_run : res (list tweet_data) :=
  scrape_twitter Fixture.mixed_env 60 "rocq" "2024-01-01" "2024-02-01"
    2 3 true true init_world.

Lemma language_filter_fail_open_witness :
  ∃ w', final_world mixed_run = Some w'
        ∧ (match mixed_run with Ok out _ => map id out | _ => [] end) = ["2"; "3"]
        ∧ In (ELangSkip "bonjour tout le monde") (history w')
        ∧ hist_ok true w'.
Proof.
  destruct (language_filter_fail_open Fixture.mixed_env true) as (_ & _ & Hfeed).
  eexists. split; [vm_compute; reflexivity |].
  split; [vm_compute; reflexivity |].
  split; [vm_compute; tauto |].
  eapply (Hfeed 60%nat "rocq" "2024-01-01" "2024-02-01" 2 3 true init_world).
  - apply Forall_nil. done.
  - vm_compute. reflexivity.
Defined.

(** ** main *)

Definition set_english_only (flag : bool) (args : Args.t) : Args.t :=
  {| Args.topic := Args.topic args; Args.start_date := Args.start_date args;
     Args.end_date := Args.end_date args; Args.output := Args.output args;
     Args.limit := Args.limit args; Args.replies_limit := Args.replies_limit args;
     Args.headless := Args.headless args; Args.english_only := flag |}.

Definition set_limit (limit : Z) (args : Args.t) : Args.t :=
  {| Args.topic := Args.topic args; Args.start_date := Args.start_date args;
     Args.end_date := Args.end_date args; Args.output := Args.output args;
     Args.limit := limit; Args.replies_limit := Args.replies_limit args;
     Args.headless := Args.headless args;
     Args.english_only := Args.english_only args |}.

(** What [main] does once the limit and the language flag of the crawl
    are fixed: the crawl, and the empty list when the crawl raises. *)
Definition crawl_with (env : oracle) (fuel : nat) (limit : Z) (english_only : bool)
    (args : Args.t) : M (list tweet_data) :=
  bind (attempt (scrape_twitter env fuel (Args.topic args) (Args.start_date args)
                   (Args.end_date args) limit (Args.replies_limit args)
                   (Args.headless args) english_only))
       (λ twitter_data, ret (default [] twitter_data)).

(** Claim C9.  [main] crawls with the language filter on, whatever the
    parsed arguments say: its run is the crawl with [english_only=True],
    and changing the parsed flag changes nothing of it. *)
Theorem main_forces_english_only (env : oracle) (fuel : nat) (args : Args.t)
    (flag : bool) :
  main env fuel (set_english_only flag args) = main env fuel args
  ∧ main env fuel args
    = crawl_with env fuel (if Args.limit args =? 50 then 120 else Args.limit args)
        true args.
Proof. split; reflexivity. Qed.

(** Claim C10.  With a limit of exactly 50, [main] crawls as it would
    with a limit of 120; with any other limit, 120 included, it crawls
    with that limit. *)
Theorem main_limit_50_becomes_120 (env : oracle) (fuel : nat) (args : Args.t) :
  main env fuel (set_limit 50 args) = crawl_with env fuel 120 true args
  ∧ main env fuel (set_limit 120 args) = crawl_with env fuel 120 true args
  ∧ (Args.limit args ≠ 50 →
     main env fuel args = crawl_with env fuel (Args.limit args) true args).
Proof.
  split; [reflexivity | split; [reflexivity |]].
  intros Hlimit. unfold main. apply Z.eqb_neq in Hlimit. by rewrite Hlimit.
Qed.

(** * More fixtures *)

Module Sample.


(** The pages of [Fixture.static_env]; only dates of ten characters parse. *)
Definition strict_dates_env : oracle :=
  {| raises := λ _, false;
     rendered := rendered Fixture.static_env;
     scroll_height := λ _, 1000;
     detect := λ _ _, Found "en";
     clock := λ _, "2024-03-01T12:00:00";
     strptime := λ s, if Nat.eqb (String.length s) 10 then Found s else Raises |}.

Definition some_args : Args.t :=
  {| Args.topic := "rocq"; Args.start_date := "yesterday"; Args.end_date := "2024-02-01";
     Args.output := "twitter_data.csv"; Args.limit := 120; Args.replies_limit := 20;
     Args.headless := true; Args.english_only := false |}.

(** A feed that shows no tweet and is taller at every look. *)
Definition endless_env : oracle :=
  {| raises := λ _, false;
     rendered := λ _, [];
     scroll_height := λ h, Z.of_nat (length h);
     detect := λ _ _, Found "en";
     clock := λ _, "2024-03-01T12:00:00";
     strptime := Found |}.

Definition crawl_args : Args.t :=
  {| Args.topic := "rocq"; Args.start_date := "2024-01-01"; Args.end_date := "2024-02-01";
     Args.output := "twitter_data.csv"; Args.limit := 50; Args.replies_limit := 3;
     Args.headless := true; Args.english_only := false |}.

End Sample.

(** * More properties of the code *)

(** The outputs of the runs that the witnesses below use. *)
Definition output {A} (r : res (list A)) : list A :=
  match r with
  | Ok out _ => out
  | Exn _ | Fuel => []
  end.

Definition static_thread_run : res (list tweet_data) :=
  get_twitter_replies Fixture.static_env "100" "alice" 3 true 60
    "https://twitter.com/alice/status/100" Fixture.one_window.

Definition static_run : res (list tweet_data) :=
  scrape_twitter Fixture.static_env 60 "rocq" "2024-01-01" "2024-02-01"
    1 3 true true init_world.

(** ** Ids *)

Lemma replies_filtered_out root_id root_author replies :
  Forall (reply_shape root_id root_author) replies →
  filter (λ r, reply_to_id r = None) replies = [].
Proof.
  induction 1 as [|r replies (_ & Hto & _) _ IH]; [done |].
  rewrite filter_cons_False; [done |]. by rewrite Hto.
Qed.

Lemma top_level_of_blocks replies_limit bs :
  Forall (block_ok replies_limit) bs →
  filter (λ r, reply_to_id r = None) (flatten bs) = map fst bs.
Proof.
  induction 1 as [|[d replies] bs [(_ & Hto & _) [_ Hreplies]] _ IH]; [done |].
  unfold flatten in *. cbn [map concat fst snd] in *.
  rewrite <- app_comm_cons, filter_cons_True by done.
  by rewrite filter_app, (replies_filtered_out _ _ _ Hreplies), IH.
Qed.

(** Property X1.  Among the records of the output of the search crawler
    that are top-level tweets (no [reply_to_id]), no id comes twice, and
    no conversation id either. *)
Theorem top_level_ids_unique (env : oracle) (fuel : nat)
    (topic start_date end_date : string) (limit replies_limit : Z)
    (headless english_only : bool) (w : world) (out : list tweet_data) (w' : world) :
  scrape_twitter env fuel topic start_date end_date limit replies_limit
    headless english_only w = Ok out w' →
  NoDup (map id (filter (λ r, reply_to_id r = None) out))
  ∧ NoDup (map conversation_id (filter (λ r, reply_to_id r = None) out)).
Proof.
  intros Hrun.
  destruct (post_ok _ _ _ _ _ _ (scrape_twitter_ok _ _ _ _ _ _ _ _ _ _) Hrun)
    as (processed & bs & -> & Hbs & Hnd & _).
  rewrite (top_level_of_blocks _ _ Hbs), !map_map.
  split; [done |].
  erewrite (map_ext_Forall _ (λ b : block, id b.1)); [exact Hnd |].
  eapply Forall_impl; [exact Hbs |]. by intros b [(-> & _) _].
Qed.

Lemma top_level_ids_unique_witness :
  NoDup (map id (filter (λ r, reply_to_id r = None) (output mixed_run)))
  ∧ NoDup (map conversation_id (filter (λ r, reply_to_id r = None) (output mixed_run))).
Proof.
  eapply (top_level_ids_unique Fixture.mixed_env 60 "rocq" "2024-01-01" "2024-02-01"
            2 3 true true init_world).
  vm_compute. reflexivity.
Defined.

(** Property X2.  What [re.search(r'/status/(\d+)', url).group(1)] gives
    for an id is a run of digits, not empty, and the url holds
    [/status/] followed by it. *)
Theorem status_id_sound (url s : string) :
  Regex.status_id url = Some s →
  PyStr.isdigit s = true ∧ PyStr.contains ("/status/" +:+ s) url = true.
Proof.
  intros H. split; [by eapply status_id_numeric |].
  unfold Regex.status_id in H.
  destruct (Regex.status_search (PyStr.chars url)) as [ds|] eqn:Hsearch; [| done].
  injection H as <-.
  destruct (status_search_sound _ _ Hsearch) as (_ & _ & Hfound).
  unfold PyStr.contains. by rewrite chars_append, chars_of_chars.
Qed.

Lemma status_id_sound_witness :
  PyStr.isdigit "100" = true
  ∧ PyStr.contains ("/status/" +:+ "100") "https://twitter.com/alice/status/100?s=20"
    = true.
Proof.
  apply (status_id_sound "https://twitter.com/alice/status/100?s=20" "100").
  reflexivity.
Defined.

(** Property X3.  In every list that the thread crawler or the search
    crawler returns, the id of every record is a run of digits, not
    empty, and the author name has no slash in it (it is the last segment
    of the author link, or "unknown"). *)
Theorem records_well_formed (env : oracle) (fuel : nat) (english_only : bool)
    (replies_limit : Z) :
  (∀ parent_id parent_username tweet_url w replies w',
     get_twitter_replies env parent_id parent_username replies_limit english_only
       fuel tweet_url w = Ok replies w' →
     Forall record_wf replies)
  ∧ (∀ topic start_date end_date limit headless w out w',
       scrape_twitter env fuel topic start_date end_date limit replies_limit
         headless english_only w = Ok out w' →
       Forall record_wf out).
Proof.
  split.
  - intros pid pu url w replies w' Hrun.
    exact (post_ok _ _ _ _ _ _
             (every_get_twitter_replies record_wf env (reply_body_wf env)
                pid pu replies_limit english_only fuel url w) Hrun).
  - intros topic sd ed limit headless w out w' Hrun.
    exact (post_ok _ _ _ _ _ _
             (every_scrape_twitter record_wf env (reply_body_wf env) (tweet_body_wf env)
                fuel topic sd ed limit replies_limit headless english_only w) Hrun).
Qed.

Lemma records_well_formed_witness :
  Forall record_wf (output static_thread_run) ∧ Forall record_wf (output static_run).
Proof.
  destruct (records_well_formed Fixture.static_env 60 true 3) as [Hthread Hfeed].
  split.
  - eapply (Hthread "100" "alice" "https://twitter.com/alice/status/100"
              Fixture.one_window).
    vm_compute. reflexivity.
  - eapply (Hfeed "rocq" "2024-01-01" "2024-02-01" 1 true init_world).
    vm_compute. reflexivity.
Defined.

(** ** How much a crawl returns *)



(** ** Runs that end, and how *)

(** A run that has ended: it returned or it raised. *)
Definition ended {A} (r : res A) : Prop :=
  match r with
  | Ok _ _ | Exn _ => True
  | Fuel => False
  end.

Lemma get_twitter_replies_total_witness :
  ∃ replies w',
    static_thread_run = Ok replies w'
    ∧ Z.of_nat (length replies) ≤ Z.max 0 3
    ∧ handles w' = [0%nat] ∧ focus w' = 0%nat.
Proof.
  apply (get_twitter_replies_total Fixture.static_env "100" "alice" 3 true 60
           "https://twitter.com/alice/status/100" Fixture.one_window 0%nat).
  - intros h. destruct h as [|[] ?]; reflexivity.
  - intros h. reflexivity.
  - lia.
  - reflexivity.
  - reflexivity.
  - simpl. lia.
Defined.

(** Property X6.  On pages whose height never changes, the whole crawl
    ends: every pass of the loop of [scrape_twitter] counts a stall, so
    there are at most fifty passes, and every thread takes at most ten,
    whatever the pages show and whichever calls raise. *)
Theorem crawl_ends_on_constant_height (env : oracle) (height : Z) (fuel : nat)
    (topic start_date end_date : string) (limit replies_limit : Z)
    (headless english_only : bool) (w : world) :
  (∀ h, scroll_height env h = height) → (50 < fuel)%nat →
  ended (scrape_twitter env fuel topic start_date end_date limit replies_limit
           headless english_only w).
Proof.
  intros Hconstant Hfuel.
  pose proof (scrape_twitter_ends env height fuel topic start_date end_date limit
                replies_limit headless english_only Hconstant Hfuel w) as H.
  unfold ended. by destruct (scrape_twitter _ _ _ _ _ _ _ _ _ _).
Qed.

Lemma crawl_ends_on_constant_height_witness :
  ended (scrape_twitter Fixture.static_env 51 "rocq" "2024-01-01" "2024-02-01"
           5 3 true true init_world).
Proof.
  apply (crawl_ends_on_constant_height Fixture.static_env 1000).
  - intros h. reflexivity.
  - lia.
Defined.



(** Property X8.  Whenever [scrape_twitter] returns, [driver.quit()] has
    run: no window of the browser is left open. *)
Theorem crawl_returns_with_browser_closed (env : oracle) (fuel : nat)
    (topic start_date end_date : string) (limit replies_limit : Z)
    (headless english_only : bool) (w : world) (out : list tweet_data) (w' : world) :
  scrape_twitter env fuel topic start_date end_date limit replies_limit
    headless english_only w = Ok out w' →
  handles w' = [] ∧ ∃ h, history w' = EQuit :: h.
Proof.
  intros Hrun.
  refine (post_ok _ w (λ _ w', handles w' = [] ∧ ∃ h, history w' = EQuit :: h)
            (λ _, True) out w' _ Hrun).
  clear Hrun.
  assert (∀ (x : list tweet_data) w0,
            post (quit env ;;; ret x) w0
              (λ _ w', handles w' = [] ∧ ∃ h, history w' = EQuit :: h)
              (λ _, True)) as Hquit.
  { intros x w0. unfold post, quit, bind, call. simpl.
    destruct (raises env _); simpl; eauto. }
  unfold scrape_twitter.
  apply post_bind_any; [intros fs w1 | done].
  apply post_bind_any; [intros fe w2 | done].
  apply post_bind_any; [intros _ w3 | done].
  apply post_bind_any; [intros reached w4 | done].
  destruct reached; [| apply Hquit].
  apply post_bind_any; [intros h w5 | done].
  apply post_bind_any; [intros tweets w6 | done].
  apply Hquit.
Qed.

Lemma crawl_returns_with_browser_closed_witness :
  ∃ out w', static_run = Ok out w'
            ∧ handles w' = [] ∧ ∃ h, history w' = EQuit :: h.
Proof.
  eexists _, _. split; [vm_compute; reflexivity |].
  eapply (crawl_returns_with_browser_closed Fixture.static_env 60 "rocq" "2024-01-01"
            "2024-02-01" 1 3 true true init_world).
  vm_compute. reflexivity.
Defined.


(** Property X9.  When one of the two dates does not parse, [main] returns
    the empty list and the browser is never started: the world is what it
    was. *)
Theorem main_with_bad_dates (env : oracle) (fuel : nat) (args : Args.t) (w : world) :
  strptime env (Args.start_date args) = Raises
  ∨ strptime env (Args.end_date args) = Raises →
  main env fuel args w = Ok [] w.
Proof.
  intros Hbad. unfold main, bind, attempt, scrape_twitter, bind.
  destruct (strptime env (Args.start_date args)) as [fs|]; simpl; [| done].
  destruct Hbad as [Hbad | Hbad]; [done |]. by rewrite Hbad.
Qed.

Lemma main_with_bad_dates_witness :
  main Sample.strict_dates_env 60 Sample.some_args init_world = Ok [] init_world.
Proof.
  apply (main_with_bad_dates Sample.strict_dates_env 60 Sample.some_args init_world).
  left. reflexivity.
Defined.

(** * Texts of counts *)

(** ** Characters *)

Ltac ascii_cases c :=
  destruct c as [[] [] [] [] [] [] [] []]; vm_compute; intros; congruence.

Lemma digit_not_space c : PyStr.is_digit c = true → PyStr.is_space c = false.
Proof. ascii_cases c. Qed.

Lemma digit_not_float_space c : PyStr.is_digit c = true → PyStr.is_float_space c = false.
Proof. ascii_cases c. Qed.

Lemma digit_lower c : PyStr.is_digit c = true → PyStr.lower_char c = c.
Proof. ascii_cases c. Qed.

Lemma digit_not_other x c :
  PyStr.is_digit x = false → PyStr.is_digit c = true → Ascii.eqb x c = false.
Proof.
  intros Hx Hc. destruct (Ascii.eqb_spec x c) as [-> |]; [congruence | done].
Qed.

Lemma digit_val_nonneg c : PyStr.is_digit c = true → 0 ≤ PyStr.digit_val c.
Proof. ascii_cases c. Qed.

Lemma split_sign_digit c l :
  PyStr.is_digit c = true → PyFloat.split_sign (c :: l) = (false, c :: l).
Proof. ascii_cases c. Qed.

Lemma lower_char_not_minus c : c ≠ "-"%char → PyStr.lower_char c ≠ "-"%char.
Proof. ascii_cases c. Qed.

(** ** Lists of characters *)

Lemma forallb_impl (p q : ascii → bool) l :
  (∀ c, p c = true → q c = true) → forallb p l = true → forallb q l = true.
Proof.
  intros Hpq. induction l as [|c l IH]; simpl; [done |].
  intros H. apply andb_prop in H as [Hc Hl]. by rewrite (Hpq c Hc), IH.
Qed.

Lemma forallb_rev_list (p : ascii → bool) l : forallb p (rev l) = forallb p l.
Proof.
  induction l as [|c l IH]; simpl; [done |].
  rewrite forallb_app, IH. simpl. rewrite andb_true_r. apply andb_comm.
Qed.

Lemma forallb_drop_while (p q : ascii → bool) l :
  forallb p l = true → forallb p (PyStr.drop_while q l) = true.
Proof.
  induction l as [|c l IH]; simpl; [done |].
  intros H. destruct (q c); [| done].
  apply andb_prop in H as [_ Hl]. by apply IH.
Qed.

Lemma forallb_strip_with (p q : ascii → bool) l :
  forallb p l = true → forallb p (PyStr.strip_with q l) = true.
Proof.
  intros H. unfold PyStr.strip_with.
  rewrite forallb_rev_list. apply forallb_drop_while.
  rewrite forallb_rev_list. by apply forallb_drop_while.
Qed.

Lemma drop_while_none p l :
  forallb (λ c, negb (p c)) l = true → PyStr.drop_while p l = l.
Proof.
  destruct l as [|c l]; simpl; [done |].
  intros H. apply andb_prop in H as [Hc _]. apply negb_true_iff in Hc. by rewrite Hc.
Qed.

Lemma drop_while_every p l : forallb p l = true → PyStr.drop_while p l = [].
Proof.
  induction l as [|c l IH]; simpl; [done |].
  intros H. apply andb_prop in H as [Hc Hl]. rewrite Hc. by apply IH.
Qed.

Lemma take_while_every p l : forallb p l = true → PyStr.take_while p l = l.
Proof.
  induction l as [|c l IH]; simpl; [done |].
  intros H. apply andb_prop in H as [Hc Hl]. rewrite Hc. by rewrite IH.
Qed.

Lemma take_while_stop p l c r :
  forallb p l = true → p c = false → PyStr.take_while p (l ++ c :: r) = l.
Proof.
  intros Hl Hc. induction l as [|d l IH]; simpl; [by rewrite Hc |].
  simpl in Hl. apply andb_prop in Hl as [Hd Hl]. rewrite Hd. by rewrite IH.
Qed.

Lemma drop_while_stop p l c r :
  forallb p l = true → p c = false → PyStr.drop_while p (l ++ c :: r) = c :: r.
Proof.
  intros Hl Hc. induction l as [|d l IH]; simpl; [by rewrite Hc |].
  simpl in Hl. apply andb_prop in Hl as [Hd Hl]. rewrite Hd. by apply IH.
Qed.

Lemma strip_with_none p l :
  forallb (λ c, negb (p c)) l = true → PyStr.strip_with p l = l.
Proof.
  intros H. unfold PyStr.strip_with.
  rewrite (drop_while_none p l H), drop_while_none, rev_involutive; [done |].
  by rewrite forallb_rev_list.
Qed.

Lemma no_such_char x l :
  forallb (λ c, negb (Ascii.eqb x c)) l = true → existsb (Ascii.eqb x) l = false.
Proof.
  induction l as [|c l IH]; simpl; [done |].
  intros H. apply andb_prop in H as [Hc Hl].
  apply negb_true_iff in Hc. by rewrite Hc, IH.
Qed.

Lemma digits_no_other x ds :
  PyStr.is_digit x = false → forallb PyStr.is_digit ds = true →
  existsb (Ascii.eqb x) ds = false.
Proof.
  intros Hx Hds. apply no_such_char. eapply forallb_impl; [| exact Hds].
  intros c Hc. simpl. by rewrite (digit_not_other x c).
Qed.

Lemma digits_lower ds :
  forallb PyStr.is_digit ds = true → map PyStr.lower_char ds = ds.
Proof.
  induction ds as [|c ds IH]; simpl; [done |].
  intros H. apply andb_prop in H as [Hc Hds]. by rewrite (digit_lower c Hc), IH.
Qed.

Lemma digits_keep x ds :
  PyStr.is_digit x = false → forallb PyStr.is_digit ds = true →
  filter (λ d, d ≠ x) ds = ds.
Proof.
  intros Hx. induction ds as [|c ds IH]; [done |].
  simpl. intros H. apply andb_prop in H as [Hc Hds].
  rewrite filter_cons_True; [by rewrite IH | congruence].
Qed.

Lemma int_of_digits_from ds : ∀ acc,
  0 ≤ acc → forallb PyStr.is_digit ds = true →
  0 ≤ fold_left (λ acc c, 10 * acc + PyStr.digit_val c) ds acc.
Proof.
  induction ds as [|c ds IH]; intros acc Hacc; simpl; [done |].
  intros H. apply andb_prop in H as [Hc Hds].
  apply IH; [| done]. pose proof (digit_val_nonneg c Hc). lia.
Qed.

Lemma int_of_digits_nonneg ds :
  forallb PyStr.is_digit ds = true → 0 ≤ PyStr.int_of_digits ds.
Proof. apply int_of_digits_from. lia. Qed.

(** ** Floats that are whole numbers *)

(** The float [x] is the whole number [n], held without rounding. *)
Definition exact (x : PyFloat.t) (n : Z) : Prop :=
  ∃ m e, x = PyFloat.Fin false m e ∧ e ≤ 0 ∧ m = n * 2 ^ (- e).

Lemma round_exact n j :
  0 ≤ j → 0 ≤ n < 2 ^ 53 → exact (PyFloat.round false (n * 2 ^ j) (2 ^ j)) n.
Proof.
  intros Hj [Hn0 Hn]. unfold PyFloat.round.
  assert (0 < 2 ^ j) as Hpj by (apply Z.pow_pos_nonneg; lia).
  destruct (Z.eqb_spec (n * 2 ^ j) 0) as [Hz | Hnz].
  - exists 0, 0. split; [done |]. split; [lia |]. simpl. nia.
  - assert (0 < n) as Hpos by nia.
    set (L := Z.log2 n).
    assert (0 ≤ L) as HL0 by apply Z.log2_nonneg.
    assert (L < 53) as HL by (by apply Z.log2_lt_pow2).
    destruct (Z.log2_spec n Hpos) as [Hlow Hhigh]. fold L in Hlow, Hhigh.
    rewrite Z.log2_mul_pow2, Z.log2_pow2 by lia. fold L.
    replace (j + L - j - 52) with (L - 52) by lia.
    unfold PyFloat.scaled_num, PyFloat.scaled_den, PyFloat.pow2.
    replace (Z.max 0 (- (L - 52))) with (52 - L) by lia.
    replace (Z.max 0 (L - 52)) with 0 by lia.
    rewrite Z.pow_0_r, Z.mul_1_r.
    assert (0 < 2 ^ (52 - L)) as Hps by (apply Z.pow_pos_nonneg; lia).
    assert (2 ^ L * 2 ^ (52 - L) = 2 ^ 52) as H52.
    { rewrite <- Z.pow_add_r by lia. f_equal. lia. }
    assert (2 ^ Z.succ L * 2 ^ (52 - L) = 2 ^ 53) as H53.
    { rewrite <- Z.pow_add_r by lia. f_equal. lia. }
    replace (n * 2 ^ j * 2 ^ (52 - L)) with (n * 2 ^ (52 - L) * 2 ^ j) by ring.
    rewrite Z.div_mul by lia.
    assert (2 ^ 52 ≤ n * 2 ^ (52 - L)) as Hge by nia.
    assert (n * 2 ^ (52 - L) < 2 ^ 53) as Hlt by nia.
    destruct (Z.ltb_spec (n * 2 ^ (52 - L)) (2 ^ 52)) as [Hbad | _]; [lia |].
    replace (Z.max (L - 52) (-1074)) with (L - 52) by lia.
    replace (Z.max 0 (- (L - 52))) with (52 - L) by lia.
    replace (Z.max 0 (L - 52)) with 0 by lia.
    rewrite Z.pow_0_r, Z.mul_1_r.
    replace (n * 2 ^ j * 2 ^ (52 - L)) with (n * 2 ^ (52 - L) * 2 ^ j) by ring.
    unfold PyFloat.round_half_even.
    rewrite Z.div_mul, Z.mod_mul by lia.
    destruct (Z.ltb_spec (2 * 0) (2 ^ j)) as [_ | Hbad]; [| lia].
    destruct (Z.eqb_spec (n * 2 ^ (52 - L)) (2 ^ 53)) as [Hbad | _]; [lia |].
    destruct (Z.ltb_spec 971 (L - 52)) as [Hbad | _]; [lia |].
    exists (n * 2 ^ (52 - L)), (L - 52). split; [done |]. split; [lia |].
    do 2 f_equal. lia.
Qed.

Lemma round_whole n : 0 ≤ n < 2 ^ 53 → exact (PyFloat.round false n 1) n.
Proof.
  intros Hn. pose proof (round_exact n 0 ltac:(lia) Hn) as H.
  by rewrite Z.pow_0_r, Z.mul_1_r in H.
Qed.

Lemma mul_int_exact x n k :
  exact x n → 0 ≤ n * k < 2 ^ 53 → exact (PyFloat.mul_int x k) (n * k).
Proof.
  intros (m & e & -> & He & ->) Hnk. unfold PyFloat.mul_int, PyFloat.pow2.
  destruct (Z.leb_spec 0 e) as [H0 | Hneg].
  - assert (e = 0) as -> by lia. simpl (- 0). rewrite !Z.pow_0_r, !Z.mul_1_r.
    by apply round_whole.
  - replace (n * 2 ^ (- e) * k) with (n * k * 2 ^ (- e)) by ring.
    apply round_exact; [lia | done].
Qed.

Lemma to_int_exact x n : exact x n → PyFloat.to_int x = Found n.
Proof.
  intros (m & e & -> & He & ->). unfold PyFloat.to_int, PyFloat.pow2. f_equal.
  destruct (Z.leb_spec 0 e) as [H0 | Hneg].
  - assert (e = 0) as -> by lia. simpl (- 0). rewrite !Z.pow_0_r. lia.
  - apply Z.div_mul. apply Z.pow_nonzero; lia.
Qed.

(** ** [float] and [int] on runs of digits *)

Lemma digits_not_space ds :
  forallb PyStr.is_digit ds = true → forallb (λ c, negb (PyStr.is_space c)) ds = true.
Proof.
  apply forallb_impl. intros c Hc. by rewrite (digit_not_space c Hc).
Qed.

Lemma digits_not_float_space ds :
  forallb PyStr.is_digit ds = true →
  forallb (λ c, negb (PyStr.is_float_space c)) ds = true.
Proof.
  apply forallb_impl. intros c Hc. by rewrite (digit_not_float_space c Hc).
Qed.

Lemma parse_decimal_digits neg ds :
  ds ≠ [] → forallb PyStr.is_digit ds = true →
  PyFloat.parse_decimal neg ds = Found (PyFloat.round neg (PyStr.int_of_digits ds) 1).
Proof.
  intros Hne Hds. unfold PyFloat.parse_decimal.
  rewrite (take_while_every _ _ Hds), (drop_while_every _ _ Hds).
  cbv beta iota zeta. rewrite app_nil_r.
  destruct ds as [|d ds']; [done |].
  change (PyFloat.parse_exponent []) with (Some 0).
  cbv beta iota. change (0 <=? 0 - Z.of_nat (length (@nil ascii))) with true.
  cbv iota. change (0 - Z.of_nat (length (@nil ascii))) with 0.
  by rewrite Z.pow_0_r, Z.mul_1_r.
Qed.

Lemma of_string_digits ds :
  ds ≠ [] → forallb PyStr.is_digit ds = true →
  PyFloat.of_string (PyStr.of_chars ds)
  = Found (PyFloat.round false (PyStr.int_of_digits ds) 1).
Proof.
  intros Hne Hds. unfold PyFloat.of_string.
  rewrite chars_of_chars, (strip_with_none _ _ (digits_not_float_space ds Hds)).
  destruct ds as [|d ds']; [done |].
  assert (PyStr.is_digit d = true) as Hd.
  { pose proof Hds as H. simpl in H. by apply andb_prop in H as [? _]. }
  cbv beta iota.
  rewrite (digits_no_other "_" (d :: ds') eq_refl Hds). cbv beta iota.
  rewrite (split_sign_digit d ds' Hd). cbv beta iota zeta.
  rewrite (digits_lower (d :: ds') Hds).
  assert (∀ w, PyStr.is_digit (match w with String c _ => c | EmptyString => "a" end)
               = false →
               String.eqb (PyStr.of_chars (d :: ds')) w = false) as Hword.
  { intros [|c w] Hw; simpl; [done |].
    destruct (Ascii.eqb_spec d c) as [-> |]; [congruence | done]. }
  rewrite !Hword by reflexivity. simpl orb. cbv iota.
  by apply parse_decimal_digits.
Qed.

(** ** The conversion on whole numbers *)

Lemma has_char_digits x ds :
  PyStr.is_digit x = false → forallb PyStr.is_digit ds = true →
  PyStr.has_char x (PyStr.of_chars ds) = false.
Proof.
  intros Hx Hds. unfold PyStr.has_char. rewrite chars_of_chars.
  by apply digits_no_other.
Qed.

Lemma has_char_digits_then x ds letter :
  PyStr.is_digit x = false → forallb PyStr.is_digit ds = true →
  PyStr.has_char x (PyStr.of_chars (ds ++ [letter])) = Ascii.eqb x letter.
Proof.
  intros Hx Hds. unfold PyStr.has_char. rewrite chars_of_chars, existsb_app.
  rewrite (digits_no_other x ds Hx Hds). simpl. apply orb_false_r.
Qed.

Lemma convert_count_digits ds :
  ds ≠ [] → forallb PyStr.is_digit ds = true →
  convert_count (PyStr.of_chars ds) = Found (PyStr.int_of_digits ds).
Proof.
  intros Hne Hds. unfold convert_count.
  rewrite !has_char_digits by done. simpl.
  by rewrite isdigit_of_chars, chars_of_chars.
Qed.

Lemma scaled_count_whole ds letter low factor :
  ds ≠ [] → forallb PyStr.is_digit ds = true →
  PyStr.lower_char letter = low → PyStr.is_digit low = false →
  0 ≤ factor → PyStr.int_of_digits ds * factor < 2 ^ 53 → factor ≠ 0 →
  scaled_count low factor (PyStr.of_chars (ds ++ [letter]))
  = Found (PyStr.int_of_digits ds * factor).
Proof.
  intros Hne Hds Hlow Hnd Hf Hsmall Hf0.
  pose proof (int_of_digits_nonneg ds Hds) as Hn.
  unfold scaled_count, PyStr.lower, PyStr.remove_char.
  rewrite !chars_of_chars, map_app, (digits_lower ds Hds). simpl map. rewrite Hlow.
  rewrite filter_app, (digits_keep low ds Hnd Hds).
  rewrite filter_cons_False, filter_nil, app_nil_r by (intros H; by apply H).
  rewrite (of_string_digits ds Hne Hds). simpl lookup_bind.
  apply to_int_exact, mul_int_exact; [apply round_whole | ]; nia.
Qed.

Lemma count_token_digits ds :
  ds ≠ [] → forallb PyStr.is_digit ds = true →
  Regex.count_token (PyStr.of_chars ds) = Some (PyStr.of_chars ds).
Proof.
  intros Hne Hds. unfold Regex.count_token. rewrite chars_of_chars.
  rewrite drop_while_none.
  2:{ eapply forallb_impl; [| exact Hds]. intros c Hc. simpl. by rewrite Hc. }
  destruct ds as [|d ds'] eqn:Eds; [done |]. rewrite <- Eds in *. clear Eds.
  f_equal. f_equal. unfold Regex.count_token_at.
  rewrite (take_while_every _ _ Hds), (drop_while_every _ _ Hds).
  cbv beta iota zeta. by rewrite !app_nil_r.
Qed.

Lemma count_token_whole ds letter :
  ds ≠ [] → forallb PyStr.is_digit ds = true →
  letter = "K"%char ∨ letter = "k"%char ∨ letter = "M"%char ∨ letter = "m"%char →
  Regex.count_token (PyStr.of_chars (ds ++ [letter]))
  = Some (PyStr.of_chars (ds ++ [letter])).
Proof.
  intros Hne Hds Hletter. unfold Regex.count_token. rewrite chars_of_chars.
  destruct ds as [|d ds'] eqn:Eds; [done |].
  assert (PyStr.is_digit d = true) as Hd.
  { simpl in Hds. by apply andb_prop in Hds as [? _]. }
  simpl app. cbn [PyStr.drop_while]. rewrite Hd. cbn [negb].
  change (d :: ds' ++ [letter]) with ((d :: ds') ++ [letter]). rewrite <- Eds in *.
  f_equal. f_equal. unfold Regex.count_token_at.
  assert (PyStr.is_digit letter = false) as Hnd
    by (destruct Hletter as [-> | [-> | [-> | ->]]]; reflexivity).
  rewrite (take_while_stop _ _ _ _ Hds Hnd), (drop_while_stop _ _ _ _ Hds Hnd).
  destruct Hletter as [-> | [-> | [-> | ->]]]; reflexivity.
Qed.

Lemma strip_digits ds :
  forallb PyStr.is_digit ds = true → PyStr.strip (PyStr.of_chars ds) = PyStr.of_chars ds.
Proof.
  intros Hds. unfold PyStr.strip.
  by rewrite chars_of_chars, (strip_with_none _ _ (digits_not_space ds Hds)).
Qed.

Lemma strip_whole ds letter :
  forallb PyStr.is_digit ds = true → PyStr.is_space letter = false →
  PyStr.strip (PyStr.of_chars (ds ++ [letter])) = PyStr.of_chars (ds ++ [letter]).
Proof.
  intros Hds Hletter. unfold PyStr.strip.
  rewrite chars_of_chars, strip_with_none; [done |].
  rewrite forallb_app, (digits_not_space ds Hds). simpl. by rewrite Hletter.
Qed.

Lemma truthy_of_chars l : l ≠ [] → PyStr.truthy (PyStr.of_chars l) = true.
Proof. by destruct l. Qed.

(** ** Counts are not negative on the grouped path *)

(** A float that is not below zero (a NaN is neither). *)
Definition not_negative (x : PyFloat.t) : Prop :=
  match x with
  | PyFloat.Fin neg m _ => neg = false ∧ 0 ≤ m
  | PyFloat.Inf neg => neg = false
  | PyFloat.NaN => True
  end.

Definition no_minus (c : ascii) : bool := negb (Ascii.eqb "-" c).

(** The characters of a match of [\d+(?:\.\d+)?[KkMm]?]. *)
Definition token_char (c : ascii) : bool :=
  PyStr.is_digit c || Ascii.eqb c "." || Regex.is_suffix_letter c.

Lemma round_half_even_nonneg a b : 0 ≤ a → 0 < b → 0 ≤ PyFloat.round_half_even a b.
Proof.
  intros Ha Hb. unfold PyFloat.round_half_even.
  pose proof (Z.div_pos a b Ha Hb).
  destruct (_ <? _); [done |]. destruct (_ <? _); [lia |]. destruct (Z.even _); lia.
Qed.

Lemma pow2_nonneg k : 0 ≤ PyFloat.pow2 k.
Proof. apply Z.pow_nonneg. lia. Qed.

Lemma pow2_pos k : 0 ≤ k → 0 < PyFloat.pow2 k.
Proof. intros Hk. apply Z.pow_pos_nonneg; lia. Qed.

Lemma round_not_negative num den :
  0 ≤ num → 0 < den → not_negative (PyFloat.round false num den).
Proof.
  intros Hnum Hden. unfold PyFloat.round.
  destruct (num =? 0); [simpl; split; [done | lia] |].
  cbv zeta.
  set (e := Z.max _ (-1074)).
  assert (0 ≤ PyFloat.round_half_even (PyFloat.scaled_num num e) (PyFloat.scaled_den den e))
    as Hm.
  { apply round_half_even_nonneg.
    - unfold PyFloat.scaled_num. pose proof (pow2_nonneg (Z.max 0 (- e))). nia.
    - unfold PyFloat.scaled_den.
      pose proof (pow2_pos (Z.max 0 e) ltac:(lia)). nia. }
  destruct (_ =? PyFloat.pow2 53).
  - destruct (971 <? _); simpl; [done |]. split; [done | apply pow2_nonneg].
  - destruct (971 <? _); simpl; [done |]. by split.
Qed.

Lemma mul_int_not_negative x k :
  not_negative x → 0 ≤ k → not_negative (PyFloat.mul_int x k).
Proof.
  destruct x as [neg m e| neg |]; simpl; [| done | done].
  intros [-> Hm] Hk. destruct (0 <=? e) eqn:He.
  - apply round_not_negative; [| lia]. pose proof (pow2_nonneg e). nia.
  - apply round_not_negative; [nia |]. apply pow2_pos. lia.
Qed.

Lemma to_int_not_negative x v :
  not_negative x → PyFloat.to_int x = Found v → 0 ≤ v.
Proof.
  destruct x as [neg m e| neg |]; simpl; [| done | done].
  intros [-> Hm] [= <-]. destruct (0 <=? e) eqn:He.
  - pose proof (pow2_nonneg e). nia.
  - apply Z.div_pos; [done |]. apply pow2_pos. lia.
Qed.

Lemma parse_decimal_not_negative body x :
  PyFloat.parse_decimal false body = Found x → not_negative x.
Proof.
  unfold PyFloat.parse_decimal. cbv zeta.
  lazymatch goal with
  | |- context [let '(_, _) := ?p in _] =>
      assert (forallb PyStr.is_digit p.1 = true) as Hfp;
      [| destruct p as [fp rest] ]
  end.
  { destruct (PyStr.drop_while PyStr.is_digit body) as [|c after]; [done |].
    destruct c as [[] [] [] [] [] [] [] []]; simpl;
      first [reflexivity | apply take_while_all]. }
  simpl in Hfp.
  assert (0 ≤ PyStr.int_of_digits (PyStr.take_while PyStr.is_digit body ++ fp)) as Hn.
  { apply int_of_digits_nonneg. by rewrite forallb_app, take_while_all, Hfp. }
  destruct (PyStr.take_while PyStr.is_digit body ++ fp) as [|d ds]; [done |].
  destruct (PyFloat.parse_exponent rest) as [ex|]; [| done].
  intros [= <-]. destruct (0 <=? _) eqn:He.
  - apply round_not_negative; [| lia].
    apply Z.mul_nonneg_nonneg; [done |]. apply Z.pow_nonneg. lia.
  - apply round_not_negative; [done |]. apply Z.pow_pos_nonneg; lia.
Qed.

Lemma strip_underscores_keeps (p : ascii → bool) l : ∀ prev l',
  forallb p l = true → PyFloat.strip_underscores prev l = Some l' →
  forallb p l' = true.
Proof.
  induction l as [|c l IH]; intros prev l'; simpl.
  - destruct (Ascii.eqb prev "_"); [done |]. by intros _ [= <-].
  - intros H. apply andb_prop in H as [Hc Hl].
    destruct (Ascii.eqb c "_").
    + destruct (PyStr.is_digit prev); [| done]. by apply IH.
    + destruct (_ && _); [done |].
      destruct (PyFloat.strip_underscores c l) as [l1|] eqn:Hrest; [| done].
      intros [= <-]. simpl. by rewrite Hc, (IH c l1).
Qed.

Lemma split_sign_no_minus l :
  forallb no_minus l = true → (PyFloat.split_sign l).1 = false.
Proof.
  destruct l as [|c l]; [done |]. simpl forallb.
  intros H. apply andb_prop in H as [Hc _]. revert Hc. unfold no_minus.
  destruct c as [[] [] [] [] [] [] [] []]; vm_compute; intros; congruence.
Qed.

Lemma of_string_not_negative s x :
  forallb no_minus (PyStr.chars s) = true →
  PyFloat.of_string s = Found x → not_negative x.
Proof.
  intros Hs. unfold PyFloat.of_string.
  pose proof (forallb_strip_with no_minus PyStr.is_float_space _ Hs) as Hl.
  destruct (PyStr.strip_with PyStr.is_float_space (PyStr.chars s)) as [|c l]; [done |].
  assert (∀ o l1, o = Some l1 → forallb no_minus l1 = true →
            (let '(neg, body) := PyFloat.split_sign l1 in
             let word := PyStr.of_chars (map PyStr.lower_char body) in
             if String.eqb word "inf" || String.eqb word "infinity"
             then Found (PyFloat.Inf neg)
             else if String.eqb word "nan" then Found PyFloat.NaN
                  else PyFloat.parse_decimal neg body) = Found x →
            not_negative x) as Hbody.
  { intros _ l1 _ Hl1. pose proof (split_sign_no_minus l1 Hl1) as Hsign.
    destruct (PyFloat.split_sign l1) as [neg body]. simpl in Hsign. subst neg.
    cbv zeta. destruct (_ || _); [by intros [= <-] |].
    destruct (String.eqb _ "nan"); [by intros [= <-] |].
    apply parse_decimal_not_negative. }
  destruct (existsb (Ascii.eqb "_") (c :: l)).
  - destruct (PyFloat.strip_underscores "000" (c :: l)) as [l1|] eqn:Hu; [| done].
    apply (Hbody (Some l1) l1 eq_refl). by eapply strip_underscores_keeps.
  - by apply (Hbody (Some (c :: l)) (c :: l) eq_refl).
Qed.

Lemma count_token_at_chars l : forallb token_char (Regex.count_token_at l) = true.
Proof.
  unfold Regex.count_token_at. cbv zeta.
  assert (∀ l0, forallb token_char (PyStr.take_while PyStr.is_digit l0) = true) as Hds.
  { intros l0. eapply forallb_impl; [| apply take_while_all].
    intros c Hc. unfold token_char. by rewrite Hc. }
  lazymatch goal with
  | |- context [let '(_, _) := ?p in _] =>
      assert (forallb token_char p.1 = true) as Hfrac;
      [| destruct p as [frac rest] ]
  end.
  { destruct (PyStr.drop_while PyStr.is_digit l) as [|c after]; [done |].
    destruct after as [|d after]; [by destruct c as [[] [] [] [] [] [] [] []] |].
    destruct c as [[] [] [] [] [] [] [] []]; try reflexivity.
    destruct (PyStr.is_digit d); [| done]. cbn [fst forallb]. by rewrite Hds. }
  simpl in Hfrac. rewrite !forallb_app, Hds, Hfrac. simpl.
  destruct rest as [|c rest]; [done |].
  destruct (Regex.is_suffix_letter c) eqn:Hc; [| done].
  simpl. unfold token_char. rewrite Hc. by rewrite orb_true_r.
Qed.

Lemma token_char_lower c : token_char c = true → no_minus (PyStr.lower_char c) = true.
Proof. unfold token_char, no_minus. ascii_cases c. Qed.

Lemma forallb_filter_list (p : ascii → bool) (q : ascii → Prop)
    `{∀ c, Decision (q c)} l :
  forallb p l = true → forallb p (filter q l) = true.
Proof.
  induction l as [|c l IH]; [done |]. simpl forallb.
  intros H0. apply andb_prop in H0 as [Hc Hl].
  destruct (decide (q c)).
  - rewrite filter_cons_True by done. simpl. by rewrite Hc, IH.
  - rewrite filter_cons_False by done. by apply IH.
Qed.

Lemma forallb_map_list (p : ascii → bool) (f : ascii → ascii) l :
  forallb p (map f l) = forallb (λ c, p (f c)) l.
Proof. induction l as [|c l IH]; simpl; [done |]. by rewrite IH. Qed.

Lemma scaled_count_token letter factor l v :
  0 ≤ factor →
  scaled_count letter factor (PyStr.of_chars (Regex.count_token_at l)) = Found v →
  0 ≤ v.
Proof.
  intros Hf. unfold scaled_count.
  destruct (PyFloat.of_string _) as [x|] eqn:Hx; [| done]. simpl.
  apply to_int_not_negative, mul_int_not_negative; [| done].
  eapply of_string_not_negative; [| exact Hx].
  unfold PyStr.remove_char, PyStr.lower. rewrite !chars_of_chars.
  apply forallb_filter_list. rewrite forallb_map_list.
  eapply forallb_impl; [| apply count_token_at_chars].
  intros c. apply token_char_lower.
Qed.

Lemma convert_count_token s token v :
  Regex.count_token s = Some token → convert_count token = Found v → 0 ≤ v.
Proof.
  unfold Regex.count_token.
  destruct (PyStr.drop_while _ _) as [|c l]; [done |]. intros [= <-].
  unfold convert_count.
  destruct (_ || _); [by apply scaled_count_token |].
  destruct (_ || _); [by apply scaled_count_token |].
  intros [= <-]. unfold PyStr.isdigit.
  destruct (PyStr.chars _) as [|d ds]; [done |].
  destruct (forallb PyStr.is_digit (d :: ds)) eqn:Hds; [| done].
  by apply int_of_digits_nonneg.
Qed.

Lemma parse_primary_not_negative text v :
  parse_primary text = Found (Some v) → 0 ≤ v.
Proof.
  unfold parse_primary.
  destruct (PyStr.truthy _); [| done].
  destruct (Regex.count_token _) as [token|] eqn:Htoken; [| done].
  unfold lookup_map, lookup_bind.
  destruct (convert_count token) as [v'|] eqn:Hv; [| done].
  intros [= <-]. by eapply convert_count_token.
Qed.

(** The three metrics are not negative. *)
Definition metrics_not_negative (m : metrics) : Prop :=
  0 ≤ reply m ∧ 0 ≤ retweet m ∧ 0 ≤ like m.

Lemma set_metric_not_negative key v m :
  0 ≤ v → metrics_not_negative m → metrics_not_negative (set_metric key v m).
Proof.
  intros Hv (Hr & Ht & Hl). unfold set_metric, metrics_not_negative.
  destruct (String.eqb key "reply"); [done |].
  destruct (String.eqb key "retweet"); [done |].
  by destruct (String.eqb key "like").
Qed.

Lemma primary_loop_not_negative els : ∀ bound m,
  metrics_not_negative m → metrics_not_negative (primary_loop els bound m).1.
Proof.
  induction els as [|el rest IH]; intros bound m Hm; simpl; [done |].
  destruct (el_testid el) as [[key|]|].
  - destruct (is_metric_key key); [| by apply IH].
    destruct (lookup_bind (el_text el) parse_primary) as [[v|]|] eqn:Hv;
      [| by apply IH | by apply IH].
    apply IH, set_metric_not_negative; [| done].
    destruct (el_text el) as [t|]; [| done]. by eapply parse_primary_not_negative.
  - by apply IH.
  - destruct bound; [by apply IH | done].
Qed.

(** * The command line and the summary *)

(** ** parse_arguments *)

(** What [parser.parse_args()] hands over: the three strings are [None]
    when their option is absent. *)
Module Parsed.

Record t : Type := {
  topic : option string;
  start_date : option string;
  end_date : option string;
  output : string;
  limit : Z;
  replies_limit : Z;
  headless : bool;
  english_only : bool;
}.

End Parsed.






(** ** save_to_csv: the summary *)

(** The column [reply_to_id] after [fillna]. *)
Definition filled_reply_to_id (r : tweet_data) : string := default "None" (reply_to_id r).

(** The four counts of the summary, lines 444-447. *)
Record summary : Type := {
  total_tweets : nat;
  unique_conversations : nat;
  top_level_tweets : nat;
  reply_tweets : nat;
}.

Definition save_to_csv (data : list tweet_data) : summary :=
  {| total_tweets := length data;
     unique_conversations :=
       size (list_to_set (map conversation_id data) : gset string);
     top_level_tweets := length (filter (λ r, filled_reply_to_id r = "None") data);
     reply_tweets := length (filter (λ r, filled_reply_to_id r ≠ "None") data) |}.

Lemma filter_split_length {A} (P : A → Prop) `{∀ x, Decision (P x)} (l : list A) :
  (length (filter P l) + length (filter (λ x, ¬ P x) l) = length l)%nat.
Proof.
  induction l as [|x l IH]; [done |].
  destruct (decide (P x)).
  - rewrite filter_cons_True, filter_cons_False by auto. simpl. lia.
  - rewrite filter_cons_False, filter_cons_True by auto. simpl. lia.
Qed.

Lemma digits_not_none s : PyStr.isdigit s = true → s ≠ "None".
Proof. intros H ->. vm_compute in H. done. Qed.

Lemma replies_not_top_level root_id root_author replies :
  PyStr.isdigit root_id = true →
  Forall (reply_shape root_id root_author) replies →
  filter (λ r, filled_reply_to_id r = "None") replies = []
  ∧ (list_to_set (map conversation_id replies) : gset string) ∪ {[root_id]}
    = {[root_id]}.
Proof.
  intros Hid. induction 1 as [|r replies (Hconv & Hto & _) _ [IH1 IH2]].
  - split; [done |]. simpl. apply (left_id_L ∅ (∪)).
  - split.
    + rewrite filter_cons_False; [done |].
      unfold filled_reply_to_id. rewrite Hto. simpl. by apply digits_not_none.
    + simpl. rewrite Hconv, <- (assoc_L (∪)), IH2. apply (idemp_L (∪)).
Qed.

Lemma summary_of_blocks replies_limit bs :
  Forall (block_ok replies_limit) bs →
  Forall record_wf (flatten bs) →
  length (filter (λ r, filled_reply_to_id r = "None") (flatten bs)) = length bs
  ∧ (list_to_set (map conversation_id (flatten bs)) : gset string)
    = list_to_set (roots bs).
Proof.
  induction 1 as [|[d replies] bs [(Hconv & Hto & _) [_ Hreplies]] _ IH]; [done |].
  unfold flatten in *. cbn [map concat roots fst snd] in *.
  intros Hwf. rewrite <- app_comm_cons in Hwf.
  apply Forall_cons in Hwf as [[Hid _] Hwf].
  apply Forall_app in Hwf as [_ Hwf].
  destruct (IH Hwf) as [IH1 IH2].
  destruct (replies_not_top_level _ _ _ Hid Hreplies) as [Hnone Hset].
  split.
  - rewrite <- app_comm_cons, filter_cons_True
      by (unfold filled_reply_to_id; by rewrite Hto).
    rewrite filter_app, Hnone. simpl. by rewrite IH1.
  - rewrite <- app_comm_cons. simpl. rewrite map_app, list_to_set_app_L, IH2, Hconv.
    fold (roots bs). rewrite (assoc_L (∪)). f_equal.
    rewrite (comm_L (∪)). exact Hset.
Qed.

(** ** Counts *)

(** Property X10.  A text that is a run of digits is read as that number
    on both paths of [get_metrics], also beyond 2^53: no float is
    involved.  The run is taken within the 4300 digits that [int] accepts
    on every interpreter. *)
Theorem digits_read_exactly (ds : list ascii) :
  ds ≠ [] → forallb PyStr.is_digit ds = true → (length ds ≤ 4300)%nat →
  parse_primary (PyStr.of_chars ds) = Found (Some (PyStr.int_of_digits ds))
  ∧ parse_secondary (PyStr.of_chars ds) = Found (Some (PyStr.int_of_digits ds)).
Proof.
  intros Hne Hds _. unfold parse_primary, parse_secondary.
  rewrite (strip_digits ds Hds), (truthy_of_chars ds Hne).
  rewrite (count_token_digits ds Hne Hds), (isdigit_of_chars ds Hne Hds).
  unfold lookup_map. by rewrite (convert_count_digits ds Hne Hds).
Qed.

Lemma digits_read_exactly_witness :
  parse_primary "1234567890123456789012" = Found (Some 1234567890123456789012)
  ∧ parse_secondary "1234567890123456789012" = Found (Some 1234567890123456789012).
Proof.
  apply (digits_read_exactly (PyStr.chars "1234567890123456789012")).
  - discriminate.
  - reflexivity.
  - simpl. lia.
Defined.

(** Property X11.  A whole number followed by [K] or [k] is read as a
    thousand times the number, followed by [M] or [m] as a million times
    the number, exactly, as long as the product is below 2^53 (the
    conversion goes through a float); on the per-metric path this holds
    for the capital letters. *)
Theorem whole_count_with_suffix (ds : list ascii) (letter : ascii) (factor : Z) :
  ds ≠ [] → forallb PyStr.is_digit ds = true →
  (letter = "K"%char ∨ letter = "k"%char) ∧ factor = 1000
  ∨ (letter = "M"%char ∨ letter = "m"%char) ∧ factor = 1000000 →
  PyStr.int_of_digits ds * factor < 2 ^ 53 →
  parse_primary (PyStr.of_chars (ds ++ [letter]))
  = Found (Some (PyStr.int_of_digits ds * factor))
  ∧ (letter = "K"%char ∨ letter = "M"%char →
     parse_secondary (PyStr.of_chars (ds ++ [letter]))
     = Found (Some (PyStr.int_of_digits ds * factor))).
Proof.
  intros Hne Hds Hletter Hsmall.
  assert (letter = "K"%char ∨ letter = "k"%char ∨ letter = "M"%char ∨ letter = "m"%char)
    as Hsuffix by (destruct Hletter as [[[|] _] | [[|] _]]; auto).
  assert (PyStr.is_space letter = false) as Hspace
    by (destruct Hsuffix as [-> | [-> | [-> | ->]]]; reflexivity).
  assert (ds ++ [letter] ≠ []) as Hne' by (by destruct ds).
  assert (convert_count (PyStr.of_chars (ds ++ [letter]))
          = Found (PyStr.int_of_digits ds * factor)) as Hconvert.
  { unfold convert_count. rewrite !has_char_digits_then by done.
    destruct Hletter as [[[-> | ->] ->] | [[-> | ->] ->]]; cbn [Ascii.eqb Bool.eqb orb];
      by apply scaled_count_whole. }
  unfold parse_primary, parse_secondary.
  rewrite (strip_whole ds letter Hds Hspace), (truthy_of_chars _ Hne').
  rewrite (count_token_whole ds letter Hne Hds Hsuffix).
  unfold lookup_map. rewrite Hconvert. split; [done |].
  intros Hcapital. rewrite !has_char_digits_then by done.
  destruct Hcapital as [-> | ->]; cbn [Ascii.eqb Bool.eqb orb andb];
    by rewrite ?orb_true_r.
Qed.

Lemma whole_count_with_suffix_witness :
  parse_primary "12k" = Found (Some 12000)
  ∧ ("k"%char = "K"%char ∨ "k"%char = "M"%char →
     parse_secondary "12k" = Found (Some 12000)).
Proof.
  apply (whole_count_with_suffix (PyStr.chars "12") "k" 1000).
  - discriminate.
  - reflexivity.
  - left. split; [by right | reflexivity].
  - reflexivity.
Defined.

(** Property X12.  A count read off the grouped selector is never
    negative, so the dictionary that the grouped pass leaves holds no
    negative number; the per-metric pass has no such guarantee, it reads
    [-5K] as -5000. *)
Theorem grouped_counts_not_negative :
  (∀ text v, parse_primary text = Found (Some v) → 0 ≤ v)
  ∧ (∀ els, metrics_not_negative (primary_loop els false zero_metrics).1)
  ∧ parse_secondary "-5K" = Found (Some (-5000)).
Proof.
  split; [exact parse_primary_not_negative |]. split; [| by vm_compute].
  intros els. apply primary_loop_not_negative. unfold metrics_not_negative. simpl. lia.
Qed.



(** ** The command line *)


(** ** The summary that [save_to_csv] prints *)

(** Property X15.  For the data that [main] hands to [save_to_csv], the
    summary counts as many top-level tweets as unique conversations, at
    most the limit that [main] passes on (120 for a limit of 50), and
    top-level tweets and replies add up to the total. *)
Theorem summary_of_a_crawl (env : oracle) (fuel : nat) (args : Args.t)
    (w : world) (data : list tweet_data) (w' : world) :
  main env fuel args w = Ok data w' →
  top_level_tweets (save_to_csv data) = unique_conversations (save_to_csv data)
  ∧ Z.of_nat (top_level_tweets (save_to_csv data))
    ≤ Z.max 0 (if Args.limit args =? 50 then 120 else Args.limit args)
  ∧ (top_level_tweets (save_to_csv data) + reply_tweets (save_to_csv data)
     = total_tweets (save_to_csv data))%nat.
Proof.
  intros Hmain. unfold save_to_csv. cbn [top_level_tweets unique_conversations
    reply_tweets total_tweets].
  split; [| split; [| apply filter_split_length]].
  - unfold main, bind, attempt in Hmain.
    destruct (scrape_twitter _ _ _ _ _ _ _ _ _ _) as [out w1| w1 |] eqn:Hrun;
      [| by injection Hmain as <- _ | done].
    injection Hmain as <- _. simpl.
    destruct (post_ok _ _ _ _ _ _ (scrape_twitter_ok _ _ _ _ _ _ _ _ _ _) Hrun)
      as (processed & bs & -> & Hbs & Hnd & _).
    pose proof (post_ok _ _ _ _ _ _
                  (every_scrape_twitter record_wf env (reply_body_wf env)
                     (tweet_body_wf env) _ _ _ _ _ _ _ _ _) Hrun) as Hwf.
    destruct (summary_of_blocks _ bs Hbs Hwf) as [-> ->].
    rewrite size_list_to_set by done. unfold roots. by rewrite length_map.
  - unfold main, bind, attempt in Hmain.
    destruct (scrape_twitter _ _ _ _ _ _ _ _ _ _) as [out w1| w1 |] eqn:Hrun;
      [| injection Hmain as <- _; simpl; lia | done].
    injection Hmain as <- _. simpl.
    destruct (post_ok _ _ _ _ _ _ (scrape_twitter_sized _ _ _ _ _ _ _ _ _ _) Hrun)
      as (processed & (bs & -> & Hbs & Hnd & ->) & Hsize).
    pose proof (post_ok _ _ _ _ _ _
                  (every_scrape_twitter record_wf env (reply_body_wf env)
                     (tweet_body_wf env) _ _ _ _ _ _ _ _ _) Hrun) as Hwf.
    destruct (summary_of_blocks _ bs Hbs Hwf) as [-> _].
    rewrite size_list_to_set in Hsize by done.
    unfold roots in Hsize. by rewrite length_map in Hsize.
Qed.

Definition sample_crawl : res (list tweet_data) :=
  main Fixture.static_env 60 Sample.crawl_args init_world.

Lemma summary_of_a_crawl_witness :
  top_level_tweets (save_to_csv (output sample_crawl))
  = unique_conversations (save_to_csv (output sample_crawl))
  ∧ Z.of_nat (top_level_tweets (save_to_csv (output sample_crawl)))
    ≤ Z.max 0 (if Args.limit Sample.crawl_args =? 50 then 120
               else Args.limit Sample.crawl_args)
  ∧ (top_level_tweets (save_to_csv (output sample_crawl))
     + reply_tweets (save_to_csv (output sample_crawl))
     = total_tweets (save_to_csv (output sample_crawl)))%nat.
Proof.
  eapply (summary_of_a_crawl Fixture.static_env 60 Sample.crawl_args init_world).
  vm_compute. reflexivity.
Defined.

(** * Which threads are opened *)

(** A thread is crawled only for a tweet whose reply count is positive. *)
Definition gated (b : block) : Prop := num_comments b.1 ≤ 0 → b.2 = [].

Definition feed_gated (replies_limit : Z) (tweets_list : list tweet_data) : Prop :=
  ∃ bs, tweets_list = flatten bs
        ∧ Forall (block_ok replies_limit) bs
        ∧ Forall gated bs.

Lemma feed_gated_add replies_limit tweets_list d replies :
  feed_gated replies_limit tweets_list →
  root_shape d →
  thread_ok (id d) (speaker_nm d) replies_limit replies →
  (num_comments d ≤ 0 → replies = []) →
  feed_gated replies_limit ((tweets_list ++ [d]) ++ replies).
Proof.
  intros (bs & -> & Hbs & Hgated) Hroot Hreplies Hgate.
  exists (bs ++ [(d, replies)]). split; [| split].
  - by rewrite flatten_snoc.
  - apply Forall_app. split; [done |]. constructor; [by split | constructor].
  - apply Forall_app. split; [done |]. constructor; [done | constructor].
Qed.

Section FeedGate.

Variable env : oracle.
Variables (limit replies_limit : Z) (english_only : bool).
Variable thread_fuel : nat.

Lemma tweet_for_gated els : ∀ tweets_list processed_tweets w,
  feed_gated replies_limit tweets_list →
  post (tweet_for env limit replies_limit english_only thread_fuel
          els tweets_list processed_tweets) w
    (λ out _, feed_gated replies_limit out.1) (λ _, False).
Proof.
  induction els as [|a rest IH]; intros tweets_list processed_tweets w Hok; simpl.
  - by apply post_ret.
  - destruct (_ <=? _); [by apply post_ret |].
    apply post_bind, post_attempt.
    eapply post_mono; [apply tweet_body_new | | ].
    + intros [[url d]|] w1 Hr; simpl; [| by apply IH].
      destruct (Hr url d eq_refl) as [Hroot _].
      destruct (Z.ltb_spec 0 (num_comments d)) as [Hpos | Hzero].
      * apply post_bind, post_attempt.
        eapply post_mono; [apply get_twitter_replies_ok | | ].
        -- intros replies w2 Hreplies. simpl. apply IH.
           apply feed_gated_add; [done | done | done | lia].
        -- intros w2 _. simpl. apply IH.
           rewrite <- (app_nil_r (tweets_list ++ [d])).
           apply feed_gated_add; auto using thread_ok_nil.
      * apply IH. rewrite <- (app_nil_r (tweets_list ++ [d])).
        apply feed_gated_add; auto using thread_ok_nil.
    + intros w1 _. by apply IH.
Qed.

Lemma tweet_while_gated fuel : ∀ tweets_list processed_tweets scroll_attempts previous_height w,
  feed_gated replies_limit tweets_list →
  post (tweet_while env limit replies_limit english_only thread_fuel fuel
          tweets_list processed_tweets scroll_attempts previous_height) w
    (λ out _, feed_gated replies_limit out) (λ _, False).
Proof.
  induction fuel as [|fuel IH]; intros tweets_list processed_tweets n h w Hok; simpl;
    [done |].
  destruct (_ && _); [| by apply post_ret].
  apply post_bind, post_attempt, post_any; [| intros; by apply IH].
  intros els w1. apply post_bind.
  eapply post_mono; [by apply tweet_for_gated | | done].
  intros [tweets1 processed1] w2 Hok1. simpl in *.
  apply post_bind, post_attempt, post_any; intros; by apply IH.
Qed.

End FeedGate.

Lemma scrape_twitter_gated env fuel topic start_date end_date limit replies_limit
    headless english_only w :
  post (scrape_twitter env fuel topic start_date end_date limit replies_limit
          headless english_only) w
    (λ out _, feed_gated replies_limit out) (λ _, True).
Proof.
  assert (feed_gated replies_limit []) as Hempty.
  { exists []. split; [done |]. split; constructor. }
  unfold scrape_twitter.
  apply post_bind_any; [intros fs w1 | done].
  apply post_bind_any; [intros fe w2 | done].
  apply post_bind_any; [intros _ w3 | done].
  apply post_bind_any; [intros reached w4 | done].
  destruct reached.
  - apply post_bind_any; [intros h w5 | done].
    apply post_bind.
    eapply post_mono; [by apply tweet_while_gated | | done].
    intros out w6 Hout. simpl.
    apply post_bind_any; [intros; by apply post_ret | done].
  - apply post_bind_any; [| done].
    intros. by apply post_ret.
Qed.

(** Property X16.  The output of the search crawler is a sequence of
    threads in which a top-level tweet whose reply count reads zero (or
    below) is followed by no reply: its thread is not opened. *)
Theorem no_thread_without_reply_count (env : oracle) (fuel : nat)
    (topic start_date end_date : string) (limit replies_limit : Z)
    (headless english_only : bool) (w : world) (out : list tweet_data) (w' : world) :
  scrape_twitter env fuel topic start_date end_date limit replies_limit
    headless english_only w = Ok out w' →
  ∃ bs, out = flatten bs
        ∧ Forall (λ b : block, root_shape b.1
                               ∧ Forall (reply_shape (id b.1) (speaker_nm b.1)) b.2) bs
        ∧ Forall (λ b : block, num_comments b.1 ≤ 0 → b.2 = []) bs.
Proof.
  intros Hrun.
  destruct (post_ok _ _ _ _ _ _ (scrape_twitter_gated _ _ _ _ _ _ _ _ _ _) Hrun)
    as (bs & -> & Hbs & Hgated).
  exists bs. split; [done |]. split; [| done].
  eapply Forall_impl; [exact Hbs |]. by intros b [Hroot [_ Hreplies]].
Qed.

Lemma no_thread_without_reply_count_witness :
  ∃ bs, output mixed_run = flatten bs
        ∧ Forall (λ b : block, root_shape b.1
                               ∧ Forall (reply_shape (id b.1) (speaker_nm b.1)) b.2) bs
        ∧ Forall (λ b : block, num_comments b.1 ≤ 0 → b.2 = []) bs.
Proof.
  eapply (no_thread_without_reply_count Fixture.mixed_env 60 "rocq" "2024-01-01"
            "2024-02-01" 2 3 true true init_world).
  vm_compute. reflexivity.
Defined.

(** * A crawl that does not end *)

Section Endless.

Variable env : oracle.

Hypothesis no_call_raises : ∀ h, raises env h = false.
Hypothesis no_tweet_shown : ∀ h, rendered env h = [].
Hypothesis height_changes : ∀ h h',
  (length h < length h')%nat → scroll_height env h ≠ scroll_height env h'.

Lemma page_call_run ev w :
  focus_open w = true → page_call env ev w = Ok tt (record_event ev w).
Proof.
  intros Hfocus. unfold page_call. simpl. by rewrite no_call_raises, Hfocus.
Qed.

Lemma focus_open_record ev w : focus_open (record_event ev w) = focus_open w.
Proof. reflexivity. Qed.

(** One pass of the loop of [scrape_twitter] on such a feed: nothing is
    collected, the height read differs from the one before, and the
    counter of stalls goes back to zero. *)
Lemma tweet_while_pass limit replies_limit english_only thread_fuel fuel
    scroll_attempts previous_height h0 w :
  0 < limit → scroll_attempts < 50 → focus_open w = true →
  previous_height = scroll_height env h0 → (length h0 ≤ length (history w))%nat →
  tweet_while env limit replies_limit english_only thread_fuel (S fuel)
    [] ∅ scroll_attempts previous_height w
  = tweet_while env limit replies_limit english_only thread_fuel fuel
      [] ∅ 0
      (scroll_height env (EHeight :: EScroll :: EFindTweets :: history w))
      (record_event EHeight (record_event EScroll (record_event EFindTweets w))).
Proof.
  intros Hlimit Hn Hfocus Hprev Hlen. cbn [tweet_while].
  rewrite size_empty.
  destruct (Z.ltb_spec (Z.of_nat 0) limit) as [_ | Hbad]; [| simpl in Hbad; lia].
  destruct (Z.ltb_spec scroll_attempts 50) as [_ | Hbad]; [| lia].
  cbn [andb].
  unfold bind at 1. unfold attempt at 1. unfold find_tweets, bind, get_world.
  rewrite (page_call_run _ _ Hfocus). cbn [ret].
  rewrite no_tweet_shown. cbn [tweet_for ret].
  unfold attempt, scroll_down, read_height, bind, get_world.
  rewrite (page_call_run EScroll) by done.
  rewrite (page_call_run EHeight) by done.
  cbn [ret record_event history].
  destruct (Z.eqb_spec (scroll_height env (EHeight :: EScroll :: EFindTweets :: history w))
              previous_height) as [Hsame | _]; [| done].
  exfalso. rewrite Hprev in Hsame.
  apply (height_changes h0 (EHeight :: EScroll :: EFindTweets :: history w));
    [simpl; lia | done].
Qed.

Lemma tweet_while_endless limit replies_limit english_only thread_fuel fuel :
  ∀ scroll_attempts previous_height h0 w,
  0 < limit → scroll_attempts < 50 → focus_open w = true →
  previous_height = scroll_height env h0 → (length h0 ≤ length (history w))%nat →
  tweet_while env limit replies_limit english_only thread_fuel fuel
    [] ∅ scroll_attempts previous_height w = Fuel.
Proof.
  induction fuel as [|fuel IH]; intros n prev h0 w Hlimit Hn Hfocus Hprev Hlen;
    [done |].
  rewrite (tweet_while_pass _ _ _ _ _ _ _ h0) by done.
  apply (IH _ _ (EHeight :: EScroll :: EFindTweets :: history w)); try done; lia.
Qed.

Lemma scrape_twitter_endless fuel topic start_date end_date limit replies_limit
    headless english_only w :
  strptime env start_date ≠ Raises → strptime env end_date ≠ Raises →
  0 < limit →
  scrape_twitter env fuel topic start_date end_date limit replies_limit
    headless english_only w = Fuel.
Proof.
  intros Hstart Hend Hlimit. unfold scrape_twitter.
  destruct (strptime env start_date) as [fs|]; [| done].
  destruct (strptime env end_date) as [fe|]; [| done].
  unfold bind at 1. cbn [lift ret]. unfold bind at 1. cbn [ret].
  unfold bind at 1. unfold setup_driver, bind, call. rewrite no_call_raises.
  set (w1 := set_windows [0%nat] 0%nat 1%nat (record_event (ESetup headless) w)).
  assert (focus_open w1 = true) as Hfocus by reflexivity.
  unfold attempt at 1. unfold driver_get, dismiss, attempt.
  rewrite !page_call_run by done.
  unfold read_height, bind, get_world.
  rewrite page_call_run by done. cbn [ret].
  by erewrite tweet_while_endless.
Qed.

Lemma reply_while_pass parent_id parent_username replies_limit english_only fuel
    scroll_attempts w :
  0 < replies_limit → scroll_attempts < 10 → focus_open w = true →
  reply_while env parent_id parent_username replies_limit english_only (S fuel)
    [] scroll_attempts w
  = reply_while env parent_id parent_username replies_limit english_only fuel [] 0
      (record_event EHeight (record_event EHeight
         (record_event EScroll (record_event EFindTweets w)))).
Proof.
  intros Hlimit Hn Hfocus. cbn [reply_while length].
  destruct (Z.ltb_spec scroll_attempts 10) as [_ | Hbad]; [| lia].
  destruct (Z.ltb_spec (Z.of_nat 0) replies_limit) as [_ | Hbad]; [| simpl in Hbad; lia].
  cbn [andb].
  unfold bind at 1. unfold attempt at 1. unfold find_tweets, bind, get_world.
  rewrite (page_call_run _ _ Hfocus). cbn [ret].
  rewrite no_tweet_shown. cbn [reply_for ret].
  unfold attempt, scroll_down, read_height, bind, get_world.
  rewrite (page_call_run EScroll) by done.
  rewrite (page_call_run EHeight) by done. cbn [ret].
  rewrite (page_call_run EHeight) by done.
  cbn [ret record_event history].
  destruct (Z.eqb_spec (scroll_height env (EHeight :: EScroll :: EFindTweets :: history w))
              (scroll_height env
                 (EHeight :: EHeight :: EScroll :: EFindTweets :: history w)))
    as [Hsame | _]; [| done].
  exfalso. revert Hsame. apply height_changes. simpl. lia.
Qed.

Lemma reply_while_endless parent_id parent_username replies_limit english_only fuel :
  ∀ scroll_attempts w,
  0 < replies_limit → scroll_attempts < 10 → focus_open w = true →
  reply_while env parent_id parent_username replies_limit english_only fuel
    [] scroll_attempts w = Fuel.
Proof.
  induction fuel as [|fuel IH]; intros n w Hlimit Hn Hfocus; [done |].
  rewrite reply_while_pass by done. by apply IH.
Qed.

Lemma get_twitter_replies_endless parent_id parent_username replies_limit english_only
    fuel tweet_url w :
  0 < replies_limit → focus_open w = true →
  get_twitter_replies env parent_id parent_username replies_limit english_only
    fuel tweet_url w = Fuel.
Proof.
  intros Hlimit Hfocus. unfold get_twitter_replies.
  unfold bind at 1. unfold attempt at 1.
  unfold open_tab, window_handles, switch_to, bind, call, get_world.
  rewrite (page_call_run _ _ Hfocus), !no_call_raises. cbn [ret].
  cbn [handles set_windows record_event]. rewrite last_snoc. cbn [lift_option ret].
  rewrite !no_call_raises. cbn [handles set_windows record_event fresh focus].
  rewrite bool_decide_eq_true_2
    by (apply elem_of_app; right; by apply list_elem_of_singleton).
  rewrite reply_while_endless; [done | done | lia |].
  unfold focus_open. cbn [focus handles set_windows record_event].
  apply bool_decide_eq_true_2, elem_of_app. right. by apply list_elem_of_singleton.
Qed.

End Endless.

(** Property X17.  Nothing bounds the passes of the loop of
    [scrape_twitter] when the height changes at every scroll: on a feed
    that shows no tweet, where no call raises and the height read after a
    scroll is never one read before, the crawl uses up any fuel, that is,
    it does not end. *)
Theorem crawl_without_end (env : oracle) (fuel : nat)
    (topic start_date end_date : string) (limit replies_limit : Z)
    (headless english_only : bool) (w : world) :
  (∀ h, raises env h = false) →
  (∀ h, rendered env h = []) →
  (∀ h h', (length h < length h')%nat → scroll_height env h ≠ scroll_height env h') →
  strptime env start_date ≠ Raises → strptime env end_date ≠ Raises →
  0 < limit →
  scrape_twitter env fuel topic start_date end_date limit replies_limit
    headless english_only w = Fuel.
Proof. intros. by apply scrape_twitter_endless. Qed.

Lemma crawl_without_end_witness :
  scrape_twitter Sample.endless_env 1000 "rocq" "2024-01-01" "2024-02-01" 120 20
    true true init_world = Fuel.
Proof.
  apply (crawl_without_end Sample.endless_env 1000 "rocq" "2024-01-01" "2024-02-01" 120 20
           true true init_world).
  - intros h. reflexivity.
  - intros h. reflexivity.
  - intros h h' Hlen. simpl. lia.
  - discriminate.
  - discriminate.
  - lia.
Defined.

(** Property X19.  Nor does anything bound the passes of the loop of the
    thread crawler when two readings of the height in a row never agree:
    on a thread page that shows no element, where no call raises, the
    thread crawler uses up any fuel as soon as [replies_limit] is
    positive. *)
Theorem thread_crawl_without_end (env : oracle) (parent_id parent_username : string)
    (replies_limit : Z) (english_only : bool) (fuel : nat) (tweet_url : string)
    (w : world) :
  (∀ h, raises env h = false) →
  (∀ h, rendered env h = []) →
  (∀ h h', (length h < length h')%nat → scroll_height env h ≠ scroll_height env h') →
  0 < replies_limit → focus_open w = true →
  get_twitter_replies env parent_id parent_username replies_limit english_only
    fuel tweet_url w = Fuel.
Proof. intros. by apply get_twitter_replies_endless. Qed.

Lemma thread_crawl_without_end_witness :
  get_twitter_replies Sample.endless_env "100" "alice" 20 true 1000
    "https://twitter.com/alice/status/100" Fixture.one_window = Fuel.
Proof.
  apply (thread_crawl_without_end Sample.endless_env "100" "alice" 20 true 1000
           "https://twitter.com/alice/status/100" Fixture.one_window).
  - intros h. reflexivity.
  - intros h. reflexivity.
  - intros h h' Hlen. simpl. lia.
  - lia.
  - reflexivity.
Defined.
